(** * Enterprise invoice agent: retry wrapper, reconciliation step,
      approval workflow and PII redaction

    A shallow embedding of [worker.py], [tools.py], [graph.py],
    [security.py], [config.py] and of the request entry points of [app.py]
    of the package [enterprise_invoice_agent], with the properties the
    specification states about them.  Of [graph.py] the functions up to
    [build_graph] are embedded; the lines that follow it in the file are
    not Python.

    Conventions of the embedding.
    - A Python call that may raise and that may touch the outside world
      (here: the pseudo random generator behind [random.random] and
      [random.randint]) is a function from the world to an outcome and the
      next world; [inl e] is a raised exception, [inr x] a returned value.
    - A [float] is an IEEE 754 binary64 value ([spec_float] of the standard
      library); a [Decimal] is the rational number it denotes.
    - An [except Exception] clause catches the instances of [Exception]
      and lets every other exception through ([ExceptionClass]); the
      exceptions the modelled code itself raises are all instances of it.
    - A [TypedDict] with optional keys is a record of options; a key that is
      absent and a key bound to [None] read the same through every [.get]
      of the modelled code.
    - A thread is the state its checkpoint holds; a run on a thread starts
      from that state with the input of the run written over it
      ([entry]). *)

From Stdlib Require Import ZArith QArith Qabs List Bool Lia.
From Stdlib Require Import SpecFloat DecimalString.
From stdpp Require Import base gmap strings list.

Set Default Proof Using "Type".
Close Scope Q_scope.
Open Scope Z_scope.

(* ===================================================================== *)
(** * Python numbers *)
(* ===================================================================== *)

Module PyNum.

(** Python's [float]: binary64. *)
Definition float : Type := spec_float.
Definition prec : Z := 53.
Definition emax : Z := 1024.

(** Python's [Decimal], by value.  The arithmetic the code performs on
    decimals (one subtraction, [abs], one comparison) is exact for
    operands of fewer than 28 significant digits. *)
Definition Decimal : Type := Q.

(** [float(d)] for a [Decimal] [d]: the binary64 value nearest to [d]
    (ties to even), obtained as the correctly rounded quotient of the
    numerator by the denominator. *)
Definition float_of_Decimal (d : Decimal) : float :=
  match Qnum d with
  | Z0 => S754_zero false
  | Zpos n =>
      SFdiv prec emax (S754_finite false n 0) (S754_finite false (Qden d) 0)
  | Zneg n =>
      SFdiv prec emax (S754_finite true n 0) (S754_finite false (Qden d) 0)
  end.

(** A float literal of the source, written as the decimal it is read from. *)
Definition float_lit (d : Q) : float := float_of_Decimal d.

(** The rational a finite float denotes; infinities and NaN denote none. *)
Definition float_value (x : float) : option Q :=
  match x with
  | S754_zero _ => Some (0 # 1)%Q
  | S754_finite s m e =>
      let mag := match e with
                 | Z0 => (Zpos m # 1)%Q
                 | Zpos p => (Zpos m * 2 ^ Zpos p # 1)%Q
                 | Zneg p => (Zpos m # 2 ^ p)%Q
                 end in
      Some (if s then Qopp mag else mag)
  | _ => None
  end.

(** [a >= b] and [a < b] on floats: false as soon as one side is NaN. *)
Definition float_ge (a b : float) : bool := SFleb b a.
Definition float_lt (a b : float) : bool := SFltb a b.

(** Truth value of a float: zero of either sign is false. *)
Definition float_truthy (x : float) : bool :=
  match x with S754_zero _ => false | _ => true end.

(** [x or 0] for a float [x].  Python's integer [0] is kept as the float
    zero of positive sign: the two compare equal and are ordered alike
    against every float. *)
Definition float_or_0 (x : float) : float :=
  if float_truthy x then x else S754_zero false.

End PyNum.
Import PyNum.

(* ===================================================================== *)
(** * Outcomes of calls, exceptions and the world *)
(* ===================================================================== *)

(** The exceptions the modelled code raises. [str(e)] is the message. *)
Inductive exn : Type :=
| TimeoutError (msg : string)
| ValidationError (msg : string).

Definition str_exn (e : exn) : string :=
  match e with TimeoutError m => m | ValidationError m => m end.

(** A call in world [W] that raises an [E] or returns an [A]. *)
Definition Call (W E A : Type) : Type := W -> (E + A) * W.

(** What an [except Exception] clause tells of an exception: an instance of
    [Exception] is caught; an exception of another class ([KeyboardInterrupt],
    [SystemExit], [GeneratorExit]) is not, and leaves the function.
    [not_Exception e] is [Some b] for such an [e], and [BaseOnly] is the type
    of the exceptions of these other classes. *)
Class ExceptionClass (E : Type) : Type := {
  BaseOnly : Type;
  not_Exception : E -> option BaseOnly
}.

(** [TimeoutError] and pydantic's [ValidationError] are instances of
    [Exception]: the modelled code raises nothing else. *)
#[global] Instance exn_class : ExceptionClass exn := {|
  BaseOnly := Empty_set;
  not_Exception := fun _ => None
|}.

Definition ret {W E A} (x : A) : Call W E A := fun w => (inr x, w).
Definition raise {W E A} (e : E) : Call W E A := fun w => (inl e, w).
Definition bind {W E A B} (c : Call W E A) (k : A -> Call W E B) : Call W E B :=
  fun w => match c w with
           | (inr x, w') => k x w'
           | (inl e, w') => (inl e, w')
           end.

Notation "'let*' x ':=' c 'in' k" := (bind c (fun x => k))
  (at level 10, x name, c at level 100, k at level 200).

(** The pseudo random generator: an unknown sequence of draws of
    [random.random()] and of [random.randint], consumed in order. *)
Record World : Type := mkWorld {
  draws : nat -> float;
  ints : nat -> Z;
  cursor : nat
}.

Definition advance (k : nat) (w : World) : World :=
  mkWorld (draws w) (ints w) (cursor w + k)%nat.

Definition random_random : Call World exn float :=
  fun w => (inr (draws w (cursor w)), advance 1 w).

(** [random.randint(a, b)]: some integer of [a..b]. *)
Definition random_randint (a b : Z) : Call World exn Z :=
  fun w => (inr (a + ints w (cursor w) mod (b - a + 1)), advance 1 w).

(* ===================================================================== *)
(** * worker.py: the retry and fallback wrapper *)
(* ===================================================================== *)

(** [range(n)]. *)
Definition range (n : Z) : list Z := map Z.of_nat (seq 0 (Z.to_nat n)).

Section Retry.
Context {W E Args A : Type} `{ExceptionClass E}.

(** The body of the [for] loop of [run_with_retry_and_fallback], over the
    attempts still to make; [last_error] is the local of the same name.
    The [except Exception] clause catches the instances of [Exception] only:
    any other exception leaves the function, which then returns nothing. *)
Fixpoint retry_loop (fn : Args -> Call W E A) (args : Args)
    (fallback_result : A) (max_retries : Z)
    (attempts : list Z) (last_error : option E) (w : W)
  : (BaseOnly + (A * option E * bool)) * W :=
  match attempts with
  | [] => (inr (fallback_result, last_error, true), w)
  | attempt :: rest =>
      match fn args w with
      | (inr result, w') => (inr (result, None, false), w')
      | (inl e, w') =>
          match not_Exception e with
          | Some b => (inl b, w')
          | None =>
              if attempt =? max_retries - 1
              then (inr (fallback_result, Some e, true), w')
              else retry_loop fn args fallback_result max_retries rest (Some e) w'
          end
      end
  end.

(** Returns [(result, error, used_fallback)], or raises the exception that
    the [except] clause did not catch. *)
Definition run_with_retry_and_fallback (fn : Args -> Call W E A) (args : Args)
    (fallback_result : A) (max_retries : Z)
  : Call W BaseOnly (A * option E * bool) :=
  retry_loop fn args fallback_result max_retries (range max_retries) None.

(** The world before call number [i] (from 0) of a sequence of calls
    [fn args], and the outcome of that call. *)
Fixpoint world_after (fn : Args -> Call W E A) (args : Args) (i : nat) (w : W) : W :=
  match i with
  | O => w
  | S j => world_after fn args j (snd (fn args w))
  end.

Definition outcome_at (fn : Args -> Call W E A) (args : Args) (i : nat) (w : W)
  : E + A :=
  fst (fn args (world_after fn args i w)).

(** The first [n] calls all raise. *)
Definition all_raise (fn : Args -> Call W E A) (args : Args) (n : nat) (w : W) : Prop :=
  forall i, (i < n)%nat -> exists e, outcome_at fn args i w = inl e.

(** The first [n] calls all raise an instance of [Exception]. *)
Definition all_caught (fn : Args -> Call W E A) (args : Args) (n : nat) (w : W) : Prop :=
  forall i, (i < n)%nat ->
            exists e, outcome_at fn args i w = inl e /\ not_Exception e = None.

(** Call number [k] (from 1) is the first that returns, and returns [r]. *)
Definition first_success (fn : Args -> Call W E A) (args : Args)
    (k : nat) (r : A) (w : W) : Prop :=
  (1 <= k)%nat /\
  all_raise fn args (k - 1) w /\
  outcome_at fn args (k - 1) w = inr r.

(** The error of the last of the first [n] calls; [None] when [n] is [0]
    or that call returned. *)
Definition last_raised (fn : Args -> Call W E A) (args : Args) (n : nat) (w : W)
  : option E :=
  match n with
  | O => None
  | S m => match outcome_at fn args m w with
           | inl e => Some e
           | inr _ => None
           end
  end.

(** The same operation with a counter of its invocations next to the world. *)
Definition counting (fn : Args -> Call W E A) : Args -> Call (W * nat) E A :=
  fun args wc =>
    let '(o, w') := fn args (fst wc) in (o, (w', S (snd wc))).

End Retry.

(* ===================================================================== *)
(** * models.py: the records of the tool layer *)
(* ===================================================================== *)

(** [Invoice.model_dump()] has the same keys as the record has fields, so
    the dictionaries of invoices that the worker passes on are kept as
    these records; [line_items] is empty in every invoice the code builds. *)
Module Invoice.
Record t : Type := mk {
  invoice_id : string;
  vendor_id : string;
  vendor_name : string;
  amount : Decimal;
  currency : string;
  due_date : option string;
  line_items : list unit;
  status : string
}.
End Invoice.

Module PurchaseOrder.
Record t : Type := mk {
  po_id : string;
  vendor_id : string;
  total_amount : Decimal;
  status : string;
  line_items : list unit
}.
End PurchaseOrder.

Module ReconciliationResult.
Record t : Type := mk {
  invoice_id : string;
  po_id : string;
  match_score : float;
  amount_match : bool;
  message : string
}.
End ReconciliationResult.

(* ===================================================================== *)
(** * tools.py *)
(* ===================================================================== *)

Module FetchInvoicesInput.
Record t : Type := mk { vendor_id : option string; limit : Z }.
End FetchInvoicesInput.

Module MatchInvoiceInput.
Record t : Type := mk { invoice_id : string; po_id : string }.
End MatchInvoiceInput.

(** The constructor of [FetchInvoicesInput] validates [1 <= limit <= 100];
    the text of the validation report is not reproduced. *)
Definition new_FetchInvoicesInput (vendor_id : option string) (limit : Z)
  : Call World exn FetchInvoicesInput.t :=
  if (1 <=? limit) && (limit <=? 100)
  then ret (FetchInvoicesInput.mk vendor_id limit)
  else raise (ValidationError "limit").

(** Truth value of an optional string: [None] and [""] are false. *)
Definition str_truthy (s : option string) : bool :=
  match s with
  | None => false
  | Some s => negb (String.eqb s "")
  end.

(** [items[:limit]]. *)
Definition slice_to {A} (limit : Z) (items : list A) : list A :=
  if limit <? 0
  then take (length items - Z.to_nat (- limit)) items
  else take (Z.to_nat limit) items.

Definition mock_invoice_items : list Invoice.t :=
  [ Invoice.mk "INV-001" "V001" "Acme Corp" (1000000 # 100)%Q "USD" None [] "pending";
    Invoice.mk "INV-002" "V001" "Acme Corp" (50000 # 100)%Q "USD" None [] "pending";
    Invoice.mk "INV-003" "V002" "Beta Inc" (250000 # 100)%Q "USD" None [] "pending" ].

(** [random.random() < 0.15]. *)
Definition timeout_drawn (r : float) : bool := float_lt r (float_lit (15 # 100)%Q).

Definition _mock_invoices (vendor_id : option string) (limit : Z)
  : Call World exn (list Invoice.t) :=
  let* r := random_random in
  if timeout_drawn r then raise (TimeoutError "ERP API timeout")
  else
    let items := mock_invoice_items in
    let items :=
      if str_truthy vendor_id
      then List.filter
             (fun i => String.eqb (Invoice.vendor_id i) (default "" vendor_id))
             items
      else items in
    ret (slice_to limit items).

Definition _mock_pos : list PurchaseOrder.t :=
  [ PurchaseOrder.mk "PO-101" "V001" (1000000 # 100)%Q "open" [];
    PurchaseOrder.mk "PO-102" "V001" (50000 # 100)%Q "open" [];
    PurchaseOrder.mk "PO-201" "V002" (250000 # 100)%Q "open" [] ].

Definition fetch_pending_invoices (args : FetchInvoicesInput.t)
  : Call World exn (list Invoice.t) :=
  let* invoices :=
    _mock_invoices (FetchInvoicesInput.vendor_id args) (FetchInvoicesInput.limit args) in
  ret invoices.

(** [a < b] on decimals. *)
Definition Decimal_lt (a b : Decimal) : bool := negb (Qle_bool b a).

(** [next((i for i in invoices if i.invoice_id == invoice_id), None)] and
    the same search among the purchase orders. *)
Definition find_invoice (invoice_id : string) (invoices : list Invoice.t)
  : option Invoice.t :=
  List.find (fun i => String.eqb (Invoice.invoice_id i) invoice_id) invoices.

Definition find_po (po_id : string) (pos : list PurchaseOrder.t)
  : option PurchaseOrder.t :=
  List.find (fun p => String.eqb (PurchaseOrder.po_id p) po_id) pos.

Definition match_invoice_to_po (args : MatchInvoiceInput.t)
  : Call World exn ReconciliationResult.t :=
  let* invoices := _mock_invoices None 100 in
  let pos := _mock_pos in
  let inv := find_invoice (MatchInvoiceInput.invoice_id args) invoices in
  let po := find_po (MatchInvoiceInput.po_id args) pos in
  match inv, po with
  | Some inv, Some po =>
      let amount_match :=
        Decimal_lt (Qabs (Qminus (Invoice.amount inv) (PurchaseOrder.total_amount po)))
                   (1 # 100)%Q in
      let score :=
        if String.eqb (Invoice.vendor_id inv) (PurchaseOrder.vendor_id po) && amount_match
        then float_lit (1 # 1)%Q else float_lit (1 # 2)%Q in
      ret (ReconciliationResult.mk
             (MatchInvoiceInput.invoice_id args) (MatchInvoiceInput.po_id args)
             score amount_match
             (if float_ge score (float_lit (1 # 2)%Q) then "Match found" else "No match"))
  | _, _ =>
      ret (ReconciliationResult.mk
             (MatchInvoiceInput.invoice_id args) (MatchInvoiceInput.po_id args)
             (float_lit (0 # 1)%Q) false "Invoice or PO not found")
  end.

(** [get_payment_details] is given [Decimal(str(x))] for a float [x]; what it
    reads from that decimal is [float(...)], which is [x] again, and its
    text, for which [Decimal_text x] stands. *)
Module PaymentDetails.
Record t : Type := mk {
  invoice_id : string;
  amount_usd : string;
  currency : string;
  requires_approval : bool;
  approval_threshold_usd : float
}.
End PaymentDetails.

(** The dictionary [execute_payment] returns: one shape per branch. *)
Inductive PaymentResult : Type :=
| PaymentCancelled (invoice_id : string) (reason : string)
| PaymentPaid (invoice_id : string) (amount_usd : string) (vendor_id : string)
              (reference : string).

(** The literal type of the key [status]. *)
Module Status.
Inductive t : Type :=
| pending | awaiting_approval | paid | cancelled | failed.
End Status.

#[global] Instance Status_eq_dec : EqDecision Status.t.
Proof. solve_decision. Defined.

(** [result["status"]]: both shapes carry the key. *)
Definition PaymentResult_status (r : PaymentResult) : Status.t :=
  match r with
  | PaymentCancelled _ _ => Status.cancelled
  | PaymentPaid _ _ _ _ => Status.paid
  end.

(** The decimal digits of an integer, as [str] and f-strings print them. *)
Definition str_int (z : Z) : string := NilEmpty.string_of_int (Z.to_int z).

Section Tools.
(** [config.HITL_APPROVAL_THRESHOLD_USD], read from the environment. *)
Variable HITL_APPROVAL_THRESHOLD_USD : float.
(** [str(Decimal(str(x)))] for a float [x], a builtin conversion. *)
Variable Decimal_text : float -> string.

Definition get_payment_details (invoice_id : string) (amount_usd : float)
  : PaymentDetails.t :=
  PaymentDetails.mk invoice_id (Decimal_text amount_usd) "USD"
    (float_ge amount_usd HITL_APPROVAL_THRESHOLD_USD)
    HITL_APPROVAL_THRESHOLD_USD.

(** [amount_usd] is the text of the decimal; [time.sleep] has no effect on
    the state modelled. *)
Definition execute_payment (invoice_id : string) (amount_usd : string)
    (vendor_id : string) (approved : bool) : Call World exn PaymentResult :=
  if negb approved
  then ret (PaymentCancelled invoice_id "User did not approve")
  else
    let* n := random_randint 1000 9999 in
    ret (PaymentPaid invoice_id amount_usd vendor_id
           ("PAY-" +:+ invoice_id +:+ "-" +:+ str_int n)).
End Tools.

(** The default of [HITL_APPROVAL_THRESHOLD_USD]: [float("5000")]. *)
Definition HITL_APPROVAL_THRESHOLD_USD_default : float := float_lit (5000 # 1)%Q.
(** The default of [MAX_TOOL_RETRIES]: [int("3")]. *)
Definition MAX_TOOL_RETRIES_default : Z := 3.

(* ===================================================================== *)
(** * worker.py: the reconciliation step *)
(* ===================================================================== *)

(** The keyword arguments [vendor_id] and [limit], as a pair. *)
Definition run_fetch_invoices (args : option string * Z)
  : Call World exn (list Invoice.t) :=
  let* inp := new_FetchInvoicesInput (fst args) (snd args) in
  fetch_pending_invoices inp.

Definition run_match_invoice (invoice_id po_id : string)
  : Call World exn ReconciliationResult.t :=
  match_invoice_to_po (MatchInvoiceInput.mk invoice_id po_id).

(** One element of [reconciled]: the keys [invoice], [match] and, on the
    [except] branch only, [error]. *)
Module ReconciledItem.
Record t : Type := mk {
  invoice : Invoice.t;
  match_ : option ReconciliationResult.t;
  error : option string
}.
End ReconciledItem.

(** The purchase order an invoice is matched against. *)
Definition po_id_for (vid : string) : string :=
  if String.eqb vid "V001" then "PO-101"
  else if String.eqb vid "V002" then "PO-201"
  else "PO-101".

(** One turn of the [for] loop of [reconcile_step]: the [try] and its
    [except Exception], which catches every exception of the matcher, all
    of them instances of [Exception]. *)
Definition reconcile_one (inv : Invoice.t) (w : World) : ReconciledItem.t * World :=
  let inv_id := Invoice.invoice_id inv in
  (* [inv.get("vendor_id") or ""]: a string, [or ""] leaves it as it is *)
  let vid := Invoice.vendor_id inv in
  let po_id := po_id_for vid in
  match run_match_invoice inv_id po_id w with
  | (inr match_, w') => (ReconciledItem.mk inv (Some match_) None, w')
  | (inl e, w') => (ReconciledItem.mk inv None (Some (str_exn e)), w')
  end.

(** The [for] loop of [reconcile_step], giving the list [reconciled]. *)
Fixpoint reconcile_items (invoices : list Invoice.t) (w : World)
  : list ReconciledItem.t * World :=
  match invoices with
  | [] => ([], w)
  | inv :: rest =>
      let '(item, w') := reconcile_one inv w in
      let '(items, w'') := reconcile_items rest w' in
      (item :: items, w'')
  end.

Section Worker.
(** [config.MAX_TOOL_RETRIES], read from the environment. *)
Variable MAX_TOOL_RETRIES : Z.

(** Returns [(reconciled, error, used_fallback)]; every exception of the
    calls inside is caught, so the step itself always returns. *)
Definition reconcile_step (vendor_id : option string) (limit : Z) (w : World)
  : (list ReconciledItem.t * option exn * bool) * World :=
  let fallback_invoices := [] in
  match run_with_retry_and_fallback run_fetch_invoices (vendor_id, limit)
          fallback_invoices MAX_TOOL_RETRIES w with
  | (inl not_caught, _) =>
      (* every exception of [run_fetch_invoices] is an instance of
         [Exception]: there is none the wrapper lets through *)
      match not_caught : Empty_set with end
  | (inr (invoices, err, used_fallback), w1) =>
      match err with
      | Some e => (([], Some e, used_fallback), w1)
      | None =>
          let '(reconciled, w2) := reconcile_items (take 3 invoices) w1 in
          ((reconciled, None, used_fallback), w2)
      end
  end.
End Worker.

(* ===================================================================== *)
(** * state.py and graph.py: the workflow *)
(* ===================================================================== *)

Module PendingPayment.
Record t : Type := mk { invoice_id : string; amount : float; vendor_id : string }.
End PendingPayment.

(** The payload handed to [interrupt]. *)
Module Prompt.
Record t : Type := mk {
  question : string;
  invoice_id : string;
  amount_usd : float;
  approval_threshold_usd : float
}.
End Prompt.

(** [InvoiceReconciliationState]; [None] is a key that is absent or bound
    to [None].  The key [messages] is read by no node and is left out. *)
Module State.
Record t : Type := mk {
  vendor_id : option string;
  reconciled : option (list ReconciledItem.t);
  pending_payment : option PendingPayment.t;
  approval : option bool;
  hitl_prompt : option Prompt.t;
  last_error : option string;
  retry_count : option Z;
  used_fallback : option bool;
  status : option Status.t;
  result : option PaymentResult
}.
End State.

(** What a node returns: the keys it sets.  [None] is a key the node does
    not set; for the two keys a node may set to [None], [Some None] is a key
    set to [None]. *)
Module Updates.
Record t : Type := mk {
  reconciled : option (list ReconciledItem.t);
  pending_payment : option PendingPayment.t;
  approval : option bool;
  hitl_prompt : option (option Prompt.t);
  last_error : option (option string);
  retry_count : option Z;
  used_fallback : option bool;
  status : option Status.t;
  result : option PaymentResult
}.

Definition set_status (s : Status.t) (u : t) : t :=
  mk (reconciled u) (pending_payment u) (approval u) (hitl_prompt u)
     (last_error u) (retry_count u) (used_fallback u) (Some s) (result u).

Definition set_pending_payment (p : PendingPayment.t) (u : t) : t :=
  mk (reconciled u) (Some p) (approval u) (hitl_prompt u)
     (last_error u) (retry_count u) (used_fallback u) (status u) (result u).
End Updates.

(** The state after a node: every key of the update replaces the key of the
    state, the other keys stay. *)
Definition merge (state : State.t) (updates : Updates.t) : State.t :=
  State.mk
    (State.vendor_id state)
    (match Updates.reconciled updates with
     | Some v => Some v | None => State.reconciled state end)
    (match Updates.pending_payment updates with
     | Some v => Some v | None => State.pending_payment state end)
    (match Updates.approval updates with
     | Some v => Some v | None => State.approval state end)
    (match Updates.hitl_prompt updates with
     | Some v => v | None => State.hitl_prompt state end)
    (match Updates.last_error updates with
     | Some v => v | None => State.last_error state end)
    (match Updates.retry_count updates with
     | Some v => Some v | None => State.retry_count state end)
    (match Updates.used_fallback updates with
     | Some v => Some v | None => State.used_fallback state end)
    (match Updates.status updates with
     | Some v => Some v | None => State.status state end)
    (match Updates.result updates with
     | Some v => Some v | None => State.result state end).

(** What running a node gives: its update, or the suspension of the run by
    [interrupt] with the payload shown to the caller. *)
Inductive NodeResult : Type :=
| Return (updates : Updates.t)
| Interrupt (prompt : Prompt.t).

(** [interrupt(value)]: suspends the run when it has no resume value, and
    returns the resume value when the node is run again on resume. *)
Definition interrupt (value : Prompt.t) (resume : option bool)
    (k : bool -> NodeResult) : NodeResult :=
  match resume with
  | None => Interrupt value
  | Some decision => k decision
  end.

(** The nodes [build_graph] adds. *)
Module Node.
Inductive t : Type := reconcile | check_approval | execute_payment.
End Node.
(** A routing target: a node, or [None] for ["__end__"]. *)
Definition END : option Node.t := None.

(** Truth value of [err]: an exception object is true, [None] is false. *)
Definition err_truthy (err : option exn) : bool :=
  match err with Some _ => true | None => false end.

(** Truth value of a list: false when empty. *)
Definition list_truthy {A} (l : list A) : bool :=
  match l with [] => false | _ :: _ => true end.

Section Graph.
Variable HITL_APPROVAL_THRESHOLD_USD : float.
Variable MAX_TOOL_RETRIES : Z.
(** [f"{x:,.2f}"] and [str(Decimal(str(x)))] for a float [x]. *)
Variable format_usd : float -> string.
Variable Decimal_text : float -> string.

Definition get_payment_summary (invoice_id : string) (amount_usd : float)
  : PaymentDetails.t :=
  get_payment_details HITL_APPROVAL_THRESHOLD_USD Decimal_text invoice_id amount_usd.

Definition reconcile_node (state : State.t) (w : World) : Updates.t * World :=
  let vendor_id := State.vendor_id state in
  let retry_count := default 0 (State.retry_count state) in
  let '((reconciled, err, used_fallback), w') :=
    reconcile_step MAX_TOOL_RETRIES vendor_id 5 w in
  let updates :=
    Updates.mk (Some reconciled) None None None
      (Some (str_exn <$> err))
      (Some (retry_count + (if err_truthy err then 1 else 0)))
      (Some used_fallback) None None in
  if err_truthy err && used_fallback && negb (list_truthy reconciled)
  then (Updates.set_status Status.failed updates, w')
  else
    match reconciled with
    | first :: _ =>
        let inv := ReconciledItem.invoice first in
        let amount := Invoice.amount inv in
        (Updates.set_pending_payment
           (PendingPayment.mk (Invoice.invoice_id inv) (float_of_Decimal amount)
              (Invoice.vendor_id inv))
           updates, w')
    | [] => (updates, w')
    end.

(** [resume] is the value [interrupt] returns when the node is run again
    after a suspension; [None] on the first run of the node. *)
Definition check_approval_node (state : State.t) (resume : option bool) : NodeResult :=
  let pending := State.pending_payment state in
  let amount_usd :=
    match pending with
    | Some p => float_or_0 (PendingPayment.amount p)
    | None => S754_zero false
    end in
  let invoice_id :=
    match pending with Some p => PendingPayment.invoice_id p | None => "" end in
  let threshold := HITL_APPROVAL_THRESHOLD_USD in
  let needs_approval := float_ge amount_usd threshold in
  if negb needs_approval
  then Return (Updates.mk None None (Some true) (Some None) None None None
                 (Some Status.pending) None)
  else
    let _ := get_payment_summary invoice_id amount_usd in
    let prompt :=
      Prompt.mk ("Ready to pay this $" +:+ format_usd amount_usd +:+ " invoice. Approve?")
        invoice_id amount_usd threshold in
    interrupt prompt resume (fun decision =>
      let approved := decision in
      Return (Updates.mk None None (Some approved) (Some (Some prompt)) None None None
                (Some (if negb approved then Status.cancelled else Status.pending)) None)).

Definition execute_payment_node (state : State.t) (w : World) : (exn + Updates.t) * World :=
  let pending := State.pending_payment state in
  let approved := default false (State.approval state) in
  let invoice_id :=
    match pending with Some p => PendingPayment.invoice_id p | None => "" end in
  let amount_usd :=
    match pending with
    | Some p => Decimal_text (PendingPayment.amount p)
    | None => "0"
    end in
  let vendor_id :=
    match pending with Some p => PendingPayment.vendor_id p | None => "" end in
  (let* result := execute_payment invoice_id amount_usd vendor_id approved in
   ret (Updates.mk None None None None None None None
          (Some (if approved then PaymentResult_status result else Status.cancelled))
          (Some result))) w.

Definition route_after_reconcile (state : State.t) : option Node.t :=
  if decide (State.status state = Some Status.failed) then END
  else
    match State.pending_payment state with
    | Some _ => Some Node.check_approval
    | None => END
    end.

Definition route_after_approval (state : State.t) : option Node.t :=
  if decide (State.status state = Some Status.cancelled) then END
  else Some Node.execute_payment.
End Graph.

(* ===================================================================== *)
(** * graph.py [build_graph] and app.py: one invocation of the graph *)
(* ===================================================================== *)

(** How an invocation of the compiled graph ends: at [END] with the final
    state, suspended inside a node with the state persisted before that
    node and the payload of [interrupt], or with an exception of a node. *)
Inductive Outcome : Type :=
| Finished (state : State.t)
| Suspended (state : State.t) (prompt : Prompt.t)
| Raised (e : exn).

(** An outcome with the nodes that ran to their end, in order, each with
    the state after it. *)
Definition Run : Type := Outcome * list (Node.t * State.t).

Section App.
Variable HITL_APPROVAL_THRESHOLD_USD : float.
Variable MAX_TOOL_RETRIES : Z.
Variable format_usd : float -> string.
Variable Decimal_text : float -> string.

(** The edge [execute_payment -> END]. *)
Definition from_execute_payment (state : State.t) (trace : list (Node.t * State.t))
    (w : World) : Run * World :=
  match execute_payment_node Decimal_text state w with
  | (inr updates, w') =>
      let state' := merge state updates in
      ((Finished state', trace ++ [(Node.execute_payment, state')]), w')
  | (inl e, w') => ((Raised e, trace), w')
  end.

(** The node [check_approval] and its conditional edges. *)
Definition from_check_approval (state : State.t) (resume : option bool)
    (trace : list (Node.t * State.t)) (w : World) : Run * World :=
  match check_approval_node HITL_APPROVAL_THRESHOLD_USD format_usd Decimal_text
          state resume with
  | Interrupt prompt => ((Suspended state prompt, trace), w)
  | Return updates =>
      let state' := merge state updates in
      let trace' := trace ++ [(Node.check_approval, state')] in
      match route_after_approval state' with
      | Some Node.execute_payment => from_execute_payment state' trace' w
      | _ => ((Finished state', trace'), w)
      end
  end.

(** The edge [START -> reconcile] and the conditional edges of
    [reconcile]. *)
Definition from_start (state : State.t) (w : World) : Run * World :=
  let '(updates, w') := reconcile_node MAX_TOOL_RETRIES state w in
  let state' := merge state updates in
  let trace' := [(Node.reconcile, state')] in
  match route_after_reconcile state' with
  | Some Node.check_approval => from_check_approval state' None trace' w'
  | _ => ((Finished state', trace'), w')
  end.

(** The state [run] of app.py starts a thread with. *)
Definition initial (vendor_id : option string) : State.t :=
  State.mk vendor_id None None None None None (Some 0) None None None.

(** [POST /run] on a new thread, before redaction. *)
Definition run (vendor_id : option string) (w : World) : Run * World :=
  from_start (initial vendor_id) w.

(** A thread with no checkpoint: no key of the state is set. *)
Definition new_thread : State.t :=
  State.mk None None None None None None None None None None.

(** The state a run starts from on a thread that holds the values
    [persisted]: [graph.invoke] writes the keys of the input of [run]
    ([vendor_id] and [retry_count]; [messages] is left out) over the values
    of the thread, and the other keys stay as the thread holds them. *)
Definition entry (persisted : State.t) (vendor_id : option string) : State.t :=
  State.mk vendor_id (State.reconciled persisted) (State.pending_payment persisted)
    (State.approval persisted) (State.hitl_prompt persisted)
    (State.last_error persisted) (Some 0) (State.used_fallback persisted)
    (State.status persisted) (State.result persisted).

(** [POST /run] on the thread that holds [persisted], before redaction; on
    a thread with no checkpoint this is [run]. *)
Definition run_thread (persisted : State.t) (vendor_id : option string) (w : World)
  : Run * World :=
  from_start (entry persisted vendor_id) w.

(** [POST /resume] on a thread suspended with the persisted state
    [state]: the suspended node runs again, [interrupt] returning
    [approved]. *)
Definition resume (state : State.t) (approved : bool) (w : World) : Run * World :=
  from_check_approval state (Some approved) [] w.
End App.

(* ===================================================================== *)
(** * config.py and security.py: redaction *)
(* ===================================================================== *)

(** The Python values [redact_pii] may be given: JSON values, and tuples as
    the example of a container that is neither a [dict] nor a [list].
    A [dict] keeps its entries in insertion order. *)
#[local] Unset Elimination Schemes.
Inductive pyval : Type :=
| PNone
| PBool (b : bool)
| PInt (z : Z)
| PFloat (x : float)
| PStr (s : string)
| PList (items : list pyval)
| PDict (entries : list (string * pyval))
| PTuple (items : list pyval).
#[local] Set Elimination Schemes.

Definition PII_KEYS : gset string :=
  {[ "vendor_tax_id"; "bank_account"; "vendor_email"; "buyer_email" ]}.

Definition REDACT_PLACEHOLDER : string := "[REDACTED]".

Fixpoint redact_pii (obj : pyval) : pyval :=
  match obj with
  | PDict entries =>
      PDict (map (fun kv =>
                    (fst kv,
                     if bool_decide (fst kv ∈ PII_KEYS)
                     then PStr REDACT_PLACEHOLDER
                     else redact_pii (snd kv)))
                 entries)
  | PList items => PList (map redact_pii items)
  | _ => obj
  end.

(** ** Positions inside a value *)

(** One step down: the value of a key of a [dict], or the element at an
    index of a [list] or of a tuple. *)
Inductive step : Type :=
| Key (k : string)
| Index (i : nat).

(** [d[k]] on the entries of a [dict]. *)
Fixpoint dict_get (k : string) (entries : list (string * pyval)) : option pyval :=
  match entries with
  | [] => None
  | (k', v) :: rest => if String.eqb k k' then Some v else dict_get k rest
  end.

Definition child (s : step) (v : pyval) : option pyval :=
  match s, v with
  | Key k, PDict entries => dict_get k entries
  | Index i, PList items => nth_error items i
  | Index i, PTuple items => nth_error items i
  | _, _ => None
  end.

(** The value found by following a path from the root. *)
Fixpoint at_path (p : list step) (v : pyval) : option pyval :=
  match p with
  | [] => Some v
  | s :: rest =>
      match child s v with
      | Some v' => at_path rest v'
      | None => None
      end
  end.

Definition is_pii_step (s : step) : bool :=
  match s with
  | Key k => bool_decide (k ∈ PII_KEYS)
  | Index _ => false
  end.

(** A JSON-like value: no tuple at any depth. *)
Fixpoint json_like (v : pyval) : bool :=
  match v with
  | PList items => forallb json_like items
  | PDict entries => forallb (fun kv => json_like (snd kv)) entries
  | PTuple _ => false
  | _ => true
  end.

(** The keys of a [dict] and the length of a [list], when the value is one. *)
Definition keys_of (v : pyval) : option (list string) :=
  match v with PDict entries => Some (map fst entries) | _ => None end.

Definition len_of (v : pyval) : option nat :=
  match v with PList items => Some (length items) | _ => None end.

(* ===================================================================== *)
(** * app.py: what the endpoints return *)
(* ===================================================================== *)

(** [v is None]. *)
Definition is_None (v : pyval) : bool :=
  match v with PNone => true | _ => false end.

(** [{k: v for k, v in state.items() if v is not None}], on the entries of
    the state. *)
Definition _state_to_response (state : list (string * pyval)) : list (string * pyval) :=
  List.filter (fun kv => negb (is_None (snd kv))) state.

(** [redact_pii(_state_to_response(result))], the value the three endpoints
    return. *)
Definition response (state : list (string * pyval)) : pyval :=
  redact_pii (PDict (_state_to_response state)).

(** [HTTPException(status_code=..., detail=...)]. *)
Record HTTPException : Type := mkHTTPException {
  status_code : Z;
  detail : string
}.

(** [get_state], from the values of the snapshot that [graph.get_state]
    returned for the thread: an empty dictionary when the thread has no
    checkpoint. *)
Definition get_state (snapshot_values : list (string * pyval))
  : HTTPException + pyval :=
  if negb (list_truthy snapshot_values)
  then inl (mkHTTPException 404 "Thread not found")
  else inr (response snapshot_values).

(* ===================================================================== *)
(** * Vocabulary of the statements and concrete inputs *)
(* ===================================================================== *)

(** What [_mock_invoices] returns when no timeout is drawn. *)
Definition mock_selection (vendor_id : option string) (limit : Z) : list Invoice.t :=
  slice_to limit
    (if str_truthy vendor_id
     then List.filter
            (fun i => String.eqb (Invoice.vendor_id i) (default "" vendor_id))
            mock_invoice_items
     else mock_invoice_items).

(** The exception of a simulated timeout. *)
Definition erp_timeout : exn := TimeoutError "ERP API timeout".

(** A generator whose draw number [i] triggers a timeout exactly when the
    [i]-th boolean of the list is [true]; every [randint] draws [234]. *)
Definition world_of (timeouts : list bool) : World :=
  mkWorld (fun i => if nth i timeouts false then float_lit (0 # 1)%Q else float_lit (1 # 2)%Q)
          (fun _ => 234) 0.

(** The status of a state is not ['failed']. *)
Definition status_not_failed (state : State.t) : Prop :=
  State.status state <> Some Status.failed.

(** No state of an invocation has the status ['failed'], and no node
    raised. *)
Definition never_failed (r : Run) : Prop :=
  Forall (fun ns => status_not_failed (snd ns)) (snd r) /\
  match fst r with
  | Finished state => status_not_failed state
  | Suspended state _ => status_not_failed state
  | Raised _ => False
  end.

(** Stand-ins for the two formatting builtins, right on the amount
    [10000.0] of the examples. *)
Definition sample_format_usd (x : float) : string := "10,000.00".
Definition sample_Decimal_text (x : float) : string := "10000.0".

(** A state whose pending payment is the given amount of invoice
    ['INV-001']. *)
Definition state_with_amount (d : Decimal) : State.t :=
  State.mk (Some "V001") (Some [])
    (Some (PendingPayment.mk "INV-001" (float_of_Decimal d) "V001"))
    None None None (Some 0) (Some false) None None.

(** The state and the prompt of the run for vendor ['V001'] with the default
    settings and no timeout: the first invoice, of [10000.00], is at or
    above the threshold. *)
Definition sample_suspended : State.t :=
  merge (initial (Some "V001"))
    (fst (reconcile_node MAX_TOOL_RETRIES_default (initial (Some "V001")) (world_of []))).

Definition sample_prompt : Prompt.t :=
  Prompt.mk "Ready to pay this $10,000.00 invoice. Approve?" "INV-001"
    (float_of_Decimal (1000000 # 100)%Q) HITL_APPROVAL_THRESHOLD_USD_default.

(** A payload with PII two and three levels down, and a value with a
    dictionary inside a tuple. *)
Definition sample_payload : pyval :=
  PDict [ ("vendor", PDict [ ("name", PStr "Acme Corp");
                             ("bank_account", PStr "DE00 1234") ]);
          ("contacts", PList [ PDict [ ("buyer_email", PStr "ap@example.com") ] ]);
          ("amount", PInt 500) ].

Definition sample_tuple : pyval :=
  PTuple [ PDict [ ("bank_account", PStr "DE00 1234") ] ].

(** A value that redaction has nothing left to do on: through dictionaries
    and lists, every value under a key of the PII set is the placeholder. *)
Definition is_placeholder (v : pyval) : bool :=
  match v with PStr s => String.eqb s REDACT_PLACEHOLDER | _ => false end.

Fixpoint pii_redacted (v : pyval) : bool :=
  match v with
  | PDict entries =>
      forallb (fun kv =>
                 if bool_decide (fst kv ∈ PII_KEYS)
                 then is_placeholder (snd kv)
                 else pii_redacted (snd kv))
              entries
  | PList items => forallb pii_redacted items
  | _ => true
  end.

(** A state as [graph.invoke] returns it, with a PII key bound to [None],
    one bound to a value, and a [None] one level down. *)
Definition sample_state_values : list (string * pyval) :=
  [ ("vendor_id", PStr "V001");
    ("vendor_email", PNone);
    ("bank_account", PStr "DE00 1234");
    ("last_error", PNone);
    ("pending_payment", PDict [ ("invoice_id", PStr "INV-001"); ("note", PNone) ]) ].

(** The states of an invocation: the state after each node that ran to its
    end and the state the invocation ends or is suspended with. *)
Definition states_of (r : Run) : list State.t :=
  map snd (snd r) ++
  match fst r with
  | Finished state => [state]
  | Suspended state _ => [state]
  | Raised _ => []
  end.

(** The nodes of an invocation that ran to their end, in order. *)
Definition nodes_of (r : Run) : list Node.t := map fst (snd r).

(** Exceptions for the concrete operations below: an exception the modelled
    code raises, or [KeyboardInterrupt], which is not an instance of
    [Exception]. *)
Inductive signal : Type :=
| Raised_exn (e : exn)
| KeyboardInterrupt.

#[global] Instance signal_class : ExceptionClass signal := {|
  BaseOnly := unit;
  not_Exception := fun e =>
    match e with
    | Raised_exn _ => None
    | KeyboardInterrupt => Some tt
    end
|}.

(** An operation that is interrupted on every call, and one that times out
    once before it is interrupted.  The world is the number of calls made so
    far. *)
Definition interrupted (_ : unit) : Call nat signal Z :=
  fun calls => (inl KeyboardInterrupt, S calls).

Definition interrupted_later (_ : unit) : Call nat signal Z :=
  fun calls =>
    if (calls <? 1)%nat then (inl (Raised_exn (TimeoutError "down")), S calls)
    else (inl KeyboardInterrupt, S calls).

(** Two operations to run the wrapper on: one that raises on its first two
    calls and returns [7] from the third on, one that always raises.  The
    world is the number of calls made so far. *)
Definition flaky (_ : unit) : Call nat exn Z :=
  fun calls =>
    if (calls <? 2)%nat then (inl (TimeoutError "down"), S calls)
    else (inr 7, S calls).

Definition broken (_ : unit) : Call nat exn Z :=
  fun calls => (inl (TimeoutError (str_int (Z.of_nat calls))), S calls).

(* ===================================================================== *)
(** * Properties of the retry and fallback wrapper *)
(* ===================================================================== *)

Section RetryFacts.
Context {W E Args A : Type} `{ExceptionClass E}.
Implicit Types (fn : Args -> Call W E A) (args : Args) (w : W).

Lemma outcome_at_S fn args i w :
  outcome_at fn args (S i) w = outcome_at fn args i (snd (fn args w)).
Proof. reflexivity. Qed.

Lemma all_raise_S fn args n w :
  all_raise fn args (S n) w ->
  (exists e, fst (fn args w) = inl e) /\ all_raise fn args n (snd (fn args w)).
Proof.
  intros Hall. split.
  - apply (Hall 0%nat). lia.
  - intros i Hi. rewrite <- outcome_at_S. apply Hall. lia.
Qed.

Lemma all_caught_S fn args n w :
  all_caught fn args (S n) w ->
  (exists e, fst (fn args w) = inl e /\ not_Exception e = None) /\
  all_caught fn args n (snd (fn args w)).
Proof.
  intros Hall. split.
  - apply (Hall 0%nat). lia.
  - intros i Hi. rewrite <- outcome_at_S. apply Hall. lia.
Qed.

Lemma all_caught_all_raise fn args n w :
  all_caught fn args n w -> all_raise fn args n w.
Proof. intros Hall i Hi. destruct (Hall i Hi) as (e & He & _). eauto. Qed.

Lemma all_caught_le fn args (m n : nat) w :
  (m <= n)%nat -> all_caught fn args n w -> all_caught fn args m w.
Proof. intros Hle Hall i Hi. apply Hall. lia. Qed.

(** The loop started at attempt [i] with [m] attempts left, when call
    number [k] of those is the first to return, the calls before it having
    raised instances of [Exception]. *)
Lemma retry_loop_first_success fn args fb (n : Z) :
  forall (m i k : nat) last w (r : A),
    Z.of_nat (i + m) <= n ->
    (k <= m)%nat ->
    first_success fn args k r w ->
    all_caught fn args (k - 1) w ->
    retry_loop fn args fb n (map Z.of_nat (seq i m)) last w
    = (inr (r, None, false), world_after fn args k w).
Proof.
  induction m as [|m IH]; intros i k last w r Hn Hk (Hk1 & _ & Hok) Hall.
  - lia.
  - cbn [seq map retry_loop].
    destruct k as [|k]; [lia|].
    replace (S k - 1)%nat with k in * by lia.
    cbn [world_after].
    destruct k as [|k].
    + unfold outcome_at in Hok. cbn in Hok.
      destruct (fn args w) as [[e|x] w']; cbn in *; congruence.
    + apply all_caught_S in Hall as [(e & He & Hc) Hall].
      rewrite outcome_at_S in Hok.
      destruct (fn args w) as [[e'|x] w'] eqn:Hcall; cbn in *; [|congruence].
      injection He as ->. rewrite Hc.
      destruct (Z.eqb_spec (Z.of_nat i) (n - 1)) as [Heq|_]; [lia|].
      rewrite (IH (S i) (S k) (Some e) w' r); try lia.
      * reflexivity.
      * split; [lia|]. replace (S k - 1)%nat with k by lia.
        split; [apply all_caught_all_raise, Hall|exact Hok].
      * replace (S k - 1)%nat with k by lia. exact Hall.
Qed.

(** The loop started at attempt [i] with [m >= 1] attempts left, the last
    of them being attempt [n - 1], when all of them raise instances of
    [Exception]. *)
Lemma retry_loop_exhausted fn args fb (n : Z) :
  forall (m i : nat) last w (e : E),
    Z.of_nat (i + S m) = n ->
    all_caught fn args (S m) w ->
    outcome_at fn args m w = inl e ->
    retry_loop fn args fb n (map Z.of_nat (seq i (S m))) last w
    = (inr (fb, Some e, true), world_after fn args (S m) w).
Proof.
  induction m as [|m IH]; intros i last w e Hn Hall Hlast.
  - cbn [seq map retry_loop world_after]. unfold outcome_at in Hlast. cbn in Hlast.
    destruct (Hall 0%nat ltac:(lia)) as (e0 & He0 & Hc). unfold outcome_at in He0.
    cbn in He0.
    destruct (fn args w) as [[e'|x] w'] eqn:Hcall; cbn in *; [|congruence].
    injection He0 as ->. rewrite Hc.
    destruct (Z.eqb_spec (Z.of_nat i) (n - 1)) as [_|Hne]; [|lia].
    congruence.
  - apply all_caught_S in Hall as [(e' & He' & Hc) Hall].
    rewrite outcome_at_S in Hlast.
    remember (S m) as m' eqn:Hm'.
    cbn [seq map retry_loop world_after].
    destruct (fn args w) as [[e''|x] w'] eqn:Hcall; cbn in *; [|congruence].
    injection He' as ->. rewrite Hc.
    destruct (Z.eqb_spec (Z.of_nat i) (n - 1)) as [Heq|_]; [lia|].
    subst m'. rewrite (IH (S i) (Some e') w' e); auto. lia.
Qed.

(** The loop started at attempt [i] with [m] attempts left, when call
    number [j] of those (from 0) raises an exception that is not an instance
    of [Exception], the calls before it having raised instances of it: the
    exception leaves the loop with that call. *)
Lemma retry_loop_not_caught fn args fb (n : Z) :
  forall (m i j : nat) last w (e : E) (b : BaseOnly),
    Z.of_nat (i + m) <= n ->
    (j < m)%nat ->
    all_caught fn args j w ->
    outcome_at fn args j w = inl e ->
    not_Exception e = Some b ->
    retry_loop fn args fb n (map Z.of_nat (seq i m)) last w
    = (inl b, world_after fn args (S j) w).
Proof.
  induction m as [|m IH]; intros i j last w e b Hn Hj Hall Hout Hb.
  - lia.
  - cbn [seq map retry_loop].
    destruct j as [|j].
    + unfold outcome_at in Hout. cbn in Hout. cbn [world_after].
      destruct (fn args w) as [[e'|x] w'] eqn:Hcall; cbn in *; [|congruence].
      injection Hout as ->. rewrite Hb. reflexivity.
    + apply all_caught_S in Hall as [(e' & He' & Hc) Hall].
      rewrite outcome_at_S in Hout.
      remember (S j) as j' eqn:Hj'. cbn [world_after]. subst j'.
      destruct (fn args w) as [[e''|x] w'] eqn:Hcall; cbn in *; [|congruence].
      injection He' as ->. rewrite Hc.
      destruct (Z.eqb_spec (Z.of_nat i) (n - 1)) as [Heq|_]; [lia|].
      apply (IH (S i) j (Some e') w' e b); auto; lia.
Qed.

(** Counting the invocations changes neither the outcomes nor the world. *)
Lemma world_after_counting fn args (k : nat) w (c : nat) :
  world_after (counting fn) args k (w, c) = (world_after fn args k w, (c + k)%nat).
Proof.
  revert w c. induction k as [|k IH]; intros w c; cbn.
  - f_equal. lia.
  - unfold counting at 2. cbn. destruct (fn args w) as [o w']. cbn.
    rewrite IH. f_equal. lia.
Qed.

Lemma outcome_at_counting fn args (k : nat) w (c : nat) :
  outcome_at (counting fn) args k (w, c) = outcome_at fn args k w.
Proof.
  unfold outcome_at. rewrite world_after_counting.
  unfold counting. cbn. destruct (fn args (world_after fn args k w)); reflexivity.
Qed.

Lemma all_raise_counting fn args (n : nat) w (c : nat) :
  all_raise fn args n w -> all_raise (counting fn) args n (w, c).
Proof. intros H0 i Hi. rewrite outcome_at_counting. auto. Qed.

Lemma all_caught_counting fn args (n : nat) w (c : nat) :
  all_caught fn args n w <-> all_caught (counting fn) args n (w, c).
Proof.
  split; intros H0 i Hi; specialize (H0 i Hi);
    rewrite outcome_at_counting in *; exact H0.
Qed.

Lemma first_success_counting fn args (k : nat) (r : A) w (c : nat) :
  first_success fn args k r w -> first_success (counting fn) args k r (w, c).
Proof.
  intros (Hk & Hall & Hok). split; [exact Hk|]. split.
  - apply all_raise_counting, Hall.
  - rewrite outcome_at_counting. exact Hok.
Qed.

Lemma range_nonpos (n : Z) : n <= 0 -> range n = [].
Proof. intros H0. unfold range. replace (Z.to_nat n) with 0%nat by lia. reflexivity. Qed.
End RetryFacts.

(** C4, as amended. For every operation, arguments, fallback value and
    [max_retries]: when the first call of the operation that returns is call
    number [k] with [1 <= k <= max_retries], the calls before it having
    raised instances of [Exception], the wrapper returns the result of that
    call with no error and [used_fallback = false], having invoked the
    operation exactly [k] times; when all [max_retries] calls raise
    instances of [Exception], it returns the fallback value, the error of
    the last call and [used_fallback = true], having invoked the operation
    [max_retries] times.  A call that raises an exception that is not an
    instance of [Exception] is the last: the wrapper returns nothing and
    that exception leaves it.  The number of invocations is read off the
    counter of the operation [counting fn]. *)
Theorem run_with_retry_and_fallback_attempts
    {W E Args A : Type} `{ExceptionClass E} (fn : Args -> Call W E A) (args : Args)
    (fallback_result : A) (max_retries : Z) (w : W) :
  (forall (k : nat) (r : A),
      1 <= Z.of_nat k <= max_retries ->
      first_success fn args k r w ->
      all_caught fn args (k - 1) w ->
      run_with_retry_and_fallback fn args fallback_result max_retries w
      = (inr (r, None, false), world_after fn args k w) /\
      run_with_retry_and_fallback (counting fn) args fallback_result max_retries (w, 0%nat)
      = (inr (r, None, false), (world_after fn args k w, k)))
  /\
  (let n := Z.to_nat max_retries in
   all_caught fn args n w ->
   run_with_retry_and_fallback fn args fallback_result max_retries w
   = (inr (fallback_result, last_raised fn args n w, true), world_after fn args n w) /\
   run_with_retry_and_fallback (counting fn) args fallback_result max_retries (w, 0%nat)
   = (inr (fallback_result, last_raised fn args n w, true), (world_after fn args n w, n)) /\
   (1 <= max_retries ->
    exists e : E,
      outcome_at fn args (n - 1) w = inl e /\ last_raised fn args n w = Some e))
  /\
  (forall (j : nat) (e : E) (b : BaseOnly),
      Z.of_nat j < max_retries ->
      all_caught fn args j w ->
      outcome_at fn args j w = inl e ->
      not_Exception e = Some b ->
      run_with_retry_and_fallback fn args fallback_result max_retries w
      = (inl b, world_after fn args (S j) w) /\
      run_with_retry_and_fallback (counting fn) args fallback_result max_retries (w, 0%nat)
      = (inl b, (world_after fn args (S j) w, S j))).
Proof.
  split; [|split].
  - intros k r Hk Hfs Hall. unfold run_with_retry_and_fallback, range. split.
    + apply retry_loop_first_success; [lia|lia|exact Hfs|exact Hall].
    + rewrite (retry_loop_first_success (counting fn) args fallback_result max_retries
                 (Z.to_nat max_retries) 0 k None (w, 0%nat) r); try lia.
      * rewrite world_after_counting. reflexivity.
      * apply first_success_counting, Hfs.
      * apply all_caught_counting, Hall.
  - intros n Hall. subst n.
    unfold run_with_retry_and_fallback, range.
    destruct (Z.to_nat max_retries) as [|m] eqn:Hm.
    + split; [reflexivity|]. split; [reflexivity|]. lia.
    + destruct (Hall m ltac:(lia)) as (e & Hlast & _).
      cbn [last_raised]. rewrite Hlast.
      replace (S m - 1)%nat with m by lia.
      split; [|split].
      * apply retry_loop_exhausted; [lia|exact Hall|exact Hlast].
      * rewrite (retry_loop_exhausted (counting fn) args fallback_result max_retries
                   m 0 None (w, 0%nat) e); try lia.
        -- rewrite world_after_counting. reflexivity.
        -- apply all_caught_counting, Hall.
        -- rewrite outcome_at_counting. exact Hlast.
      * intros _. exists e. auto.
  - intros j e b Hj Hall Hout Hb. unfold run_with_retry_and_fallback, range. split.
    + apply (retry_loop_not_caught fn args fallback_result max_retries
               (Z.to_nat max_retries) 0 j None w e b); auto; lia.
    + rewrite (retry_loop_not_caught (counting fn) args fallback_result max_retries
                 (Z.to_nat max_retries) 0 j None (w, 0%nat) e b); try lia; auto.
      * rewrite world_after_counting. reflexivity.
      * apply all_caught_counting, Hall.
      * rewrite outcome_at_counting. exact Hout.
Qed.

(** C9. With [max_retries <= 0] the operation is never invoked (the counter
    of [counting fn] stays at [0] and the world is untouched) and the
    wrapper returns the fallback value with no error and
    [used_fallback = true]. *)
Theorem run_with_retry_and_fallback_no_attempt
    {W E Args A : Type} `{ExceptionClass E} (fn : Args -> Call W E A) (args : Args)
    (fallback_result : A) (max_retries : Z) (w : W) :
  max_retries <= 0 ->
  run_with_retry_and_fallback fn args fallback_result max_retries w
  = (inr (fallback_result, None, true), w) /\
  run_with_retry_and_fallback (counting fn) args fallback_result max_retries (w, 0%nat)
  = (inr (fallback_result, None, true), (w, 0%nat)).
Proof.
  intros Hn. unfold run_with_retry_and_fallback.
  rewrite range_nonpos by exact Hn. split; reflexivity.
Qed.

Lemma flaky_first_success : first_success flaky tt 3 7 0%nat.
Proof.
  split; [lia|]. split; [|reflexivity].
  intros [|[|i]] Hi; [eexists; reflexivity | eexists; reflexivity | cbn in Hi; lia].
Qed.

Lemma flaky_all_caught : all_caught flaky tt 2 0%nat.
Proof.
  intros [|[|i]] Hi; [eexists; split; reflexivity | eexists; split; reflexivity | lia].
Qed.

Lemma broken_all_raise (n : nat) : all_raise broken tt n 0%nat.
Proof. intros i _. eexists. reflexivity. Qed.

Lemma broken_all_caught (n : nat) : all_caught broken tt n 0%nat.
Proof. intros i _. eexists. split; reflexivity. Qed.

Lemma interrupted_all_raise (n : nat) : all_raise interrupted tt n 0%nat.
Proof. intros i _. eexists. reflexivity. Qed.

Lemma interrupted_later_all_caught : all_caught interrupted_later tt 1 0%nat.
Proof. intros [|i] Hi; [eexists; split; reflexivity|lia]. Qed.

(** Three attempts on [flaky], which returns on the third, on [broken],
    which never returns, and on [interrupted_later], which is interrupted
    on its second call. *)
Lemma run_with_retry_and_fallback_attempts_witness :
  first_success flaky tt 3 7 0%nat /\
  run_with_retry_and_fallback (counting flaky) tt 0 3 (0%nat, 0%nat)
  = (inr (7, None, false), (3%nat, 3%nat)) /\
  all_caught broken tt 3 0%nat /\
  run_with_retry_and_fallback (counting broken) tt 0 3 (0%nat, 0%nat)
  = (inr (0, Some (TimeoutError "2"), true), (3%nat, 3%nat)) /\
  all_caught interrupted_later tt 1 0%nat /\
  run_with_retry_and_fallback (counting interrupted_later) tt 0 3 (0%nat, 0%nat)
  = (inl tt, (2%nat, 2%nat)).
Proof.
  split; [exact flaky_first_success|].
  split; [|split; [exact (broken_all_caught 3)|split;
                   [|split; [exact interrupted_later_all_caught|]]]].
  - exact (proj2 (proj1 (run_with_retry_and_fallback_attempts flaky tt 0 3 0%nat)
                    3%nat 7 ltac:(lia) flaky_first_success flaky_all_caught)).
  - exact (proj1 (proj2 (proj1 (proj2
             (run_with_retry_and_fallback_attempts broken tt 0 3 0%nat))
             (broken_all_caught 3)))).
  - exact (proj2 (proj2 (proj2
             (run_with_retry_and_fallback_attempts interrupted_later tt 0 3 0%nat))
             1%nat KeyboardInterrupt tt ltac:(lia) interrupted_later_all_caught
             eq_refl eq_refl)).
Defined.

(** The wrapper on an operation that is interrupted on every call, with a
    budget of three: all three calls would raise, yet no fallback is
    returned; the interruption leaves the wrapper on the first call. *)
Lemma run_with_retry_and_fallback_interrupted :
  all_raise interrupted tt 3 0%nat /\
  run_with_retry_and_fallback (counting interrupted) tt 0 3 (0%nat, 0%nat)
  = (inl tt, (1%nat, 1%nat)).
Proof. split; [exact (interrupted_all_raise 3)|reflexivity]. Qed.

(** A budget of [0] and a budget of [-2]. *)
Lemma run_with_retry_and_fallback_no_attempt_witness :
  run_with_retry_and_fallback (counting broken) tt 5 0 (0%nat, 0%nat)
  = (inr (5, None, true), (0%nat, 0%nat)) /\
  run_with_retry_and_fallback (counting flaky) tt 5 (-2) (0%nat, 0%nat)
  = (inr (5, None, true), (0%nat, 0%nat)).
Proof.
  split.
  - apply (run_with_retry_and_fallback_no_attempt broken tt 5 0 0%nat). lia.
  - apply (run_with_retry_and_fallback_no_attempt flaky tt 5 (-2) 0%nat). lia.
Defined.

(* ===================================================================== *)
(** * Properties of the tool layer *)
(* ===================================================================== *)

Lemma advance_advance (i j : nat) (w : World) :
  advance j (advance i w) = advance (i + j) w.
Proof. unfold advance. cbn. f_equal. lia. Qed.

Lemma advance_0 (w : World) : advance 0 w = w.
Proof. destruct w as [d n c]. unfold advance. cbn. f_equal. lia. Qed.

(** One call of [_mock_invoices] consumes one draw, and raises exactly when
    that draw is below [0.15]. *)
Lemma _mock_invoices_call (vendor_id : option string) (limit : Z) (w : World) :
  _mock_invoices vendor_id limit w
  = (if timeout_drawn (draws w (cursor w))
     then inl erp_timeout else inr (mock_selection vendor_id limit),
     advance 1 w).
Proof.
  unfold _mock_invoices, bind, random_random, mock_selection, erp_timeout.
  destruct (timeout_drawn (draws w (cursor w))); reflexivity.
Qed.

Lemma run_fetch_invoices_call (vendor_id : option string) (limit : Z) (w : World) :
  1 <= limit <= 100 ->
  run_fetch_invoices (vendor_id, limit) w
  = (if timeout_drawn (draws w (cursor w))
     then inl erp_timeout else inr (mock_selection vendor_id limit),
     advance 1 w).
Proof.
  intros Hl. unfold run_fetch_invoices, new_FetchInvoicesInput, bind. cbn [fst snd].
  replace ((1 <=? limit) && (limit <=? 100)) with true
    by (symmetry; apply andb_true_iff; split; apply Z.leb_le; lia).
  unfold ret at 1. unfold fetch_pending_invoices, bind.
  cbn [FetchInvoicesInput.vendor_id FetchInvoicesInput.limit].
  rewrite _mock_invoices_call.
  destruct (timeout_drawn (draws w (cursor w))); reflexivity.
Qed.

Lemma Decimal_lt_iff (a b : Decimal) : Decimal_lt a b = true <-> (a < b)%Q.
Proof.
  unfold Decimal_lt. rewrite negb_true_iff.
  split.
  - intros H. apply Qnot_le_lt. intros Hle. apply Qle_bool_iff in Hle. congruence.
  - intros H. destruct (Qle_bool b a) eqn:Hb; [|reflexivity].
    apply Qle_bool_iff in Hb. exfalso. exact (Qlt_not_le _ _ H Hb).
Qed.

(** No invoice of the table differs from a purchase order of the table by
    exactly the tolerance. *)
Lemma mock_amounts_off_tolerance (inv : Invoice.t) (po : PurchaseOrder.t) :
  In inv mock_invoice_items -> In po _mock_pos ->
  ~ (Qabs (Invoice.amount inv - PurchaseOrder.total_amount po) == 1 # 100)%Q.
Proof.
  intros Hi Hp. cbn in Hi, Hp.
  destruct Hi as [<-|[<-|[<-|[]]]]; destruct Hp as [<-|[<-|[<-|[]]]];
    vm_compute; discriminate.
Qed.

Lemma float_lit_1_neq_half : float_lit (1 # 1)%Q <> float_lit (1 # 2)%Q.
Proof. vm_compute. discriminate. Qed.

(** The identifiers of the two tables name one record each, which the
    search of [match_invoice_to_po] finds. *)
Lemma find_invoice_In (invoice_id : string) (inv : Invoice.t) :
  In inv mock_invoice_items -> Invoice.invoice_id inv = invoice_id ->
  find_invoice invoice_id mock_invoice_items = Some inv.
Proof.
  intros Hin <-. cbn in Hin. destruct Hin as [<-|[<-|[<-|[]]]]; reflexivity.
Qed.

Lemma find_po_In (po_id : string) (po : PurchaseOrder.t) :
  In po _mock_pos -> PurchaseOrder.po_id po = po_id ->
  find_po po_id _mock_pos = Some po.
Proof.
  intros Hin <-. cbn in Hin. destruct Hin as [<-|[<-|[<-|[]]]]; reflexivity.
Qed.

Lemma find_invoice_Some (invoice_id : string) (inv : Invoice.t) :
  find_invoice invoice_id mock_invoice_items = Some inv ->
  In inv mock_invoice_items /\ Invoice.invoice_id inv = invoice_id.
Proof.
  intros Hf. apply find_some in Hf as [Hin Heq].
  split; [exact Hin|]. apply String.eqb_eq, Heq.
Qed.

Lemma find_po_Some (po_id : string) (po : PurchaseOrder.t) :
  find_po po_id _mock_pos = Some po ->
  In po _mock_pos /\ PurchaseOrder.po_id po = po_id.
Proof.
  intros Hf. apply find_some in Hf as [Hin Heq].
  split; [exact Hin|]. apply String.eqb_eq, Heq.
Qed.

(** C6. One call of [match_invoice_to_po] either raises the simulated
    timeout or returns a result for the two identifiers it was given.
    Found and not found are read on the two tables.  When the invoice table
    has an invoice with the given id and the table of purchase orders has an
    order with the given id, then for that invoice and that order
    [amount_match] holds exactly when the absolute difference of the two
    amounts is below [0.01] (for the amounts of the two tables: exactly when
    it is at most [0.01]), the score is [1.0] exactly when the vendors agree
    and [amount_match] holds, and [0.5] otherwise.  When no invoice of the
    table has the given id, or no purchase order has, the score of the
    result is [0.0], [amount_match] is false and the message is
    ['Invoice or PO not found']. *)
Theorem match_invoice_to_po_scores (args : MatchInvoiceInput.t) (w : World) :
  exists r : ReconciliationResult.t,
    match_invoice_to_po args w
    = (if timeout_drawn (draws w (cursor w)) then inl erp_timeout else inr r,
       advance 1 w) /\
    ReconciliationResult.invoice_id r = MatchInvoiceInput.invoice_id args /\
    ReconciliationResult.po_id r = MatchInvoiceInput.po_id args /\
    (forall (inv : Invoice.t) (po : PurchaseOrder.t),
        In inv mock_invoice_items ->
        Invoice.invoice_id inv = MatchInvoiceInput.invoice_id args ->
        In po _mock_pos ->
        PurchaseOrder.po_id po = MatchInvoiceInput.po_id args ->
        let difference :=
          Qabs (Invoice.amount inv - PurchaseOrder.total_amount po) in
        let vendors_agree := Invoice.vendor_id inv = PurchaseOrder.vendor_id po in
        (ReconciliationResult.amount_match r = true <-> (difference < 1 # 100)%Q) /\
        (ReconciliationResult.amount_match r = true <-> (difference <= 1 # 100)%Q) /\
        (ReconciliationResult.match_score r = float_lit (1 # 1)%Q <->
         vendors_agree /\ ReconciliationResult.amount_match r = true) /\
        (~ (vendors_agree /\ ReconciliationResult.amount_match r = true) ->
         ReconciliationResult.match_score r = float_lit (1 # 2)%Q)) /\
    ((forall inv : Invoice.t,
         In inv mock_invoice_items ->
         Invoice.invoice_id inv <> MatchInvoiceInput.invoice_id args) \/
     (forall po : PurchaseOrder.t,
         In po _mock_pos ->
         PurchaseOrder.po_id po <> MatchInvoiceInput.po_id args) ->
     ReconciliationResult.match_score r = float_lit (0 # 1)%Q /\
     ReconciliationResult.amount_match r = false /\
     ReconciliationResult.message r = "Invoice or PO not found").
Proof.
  unfold match_invoice_to_po, bind.
  rewrite _mock_invoices_call.
  change (mock_selection None 100) with mock_invoice_items.
  destruct (find_invoice (MatchInvoiceInput.invoice_id args) mock_invoice_items)
    as [inv|] eqn:Hinv;
    [destruct (find_po (MatchInvoiceInput.po_id args) _mock_pos) as [po|] eqn:Hpo|].
  - eexists. split.
    { destruct (timeout_drawn (draws w (cursor w))); [reflexivity|].
      cbn beta iota zeta. rewrite Hinv; try rewrite Hpo. reflexivity. }
    cbn [ReconciliationResult.invoice_id
      ReconciliationResult.po_id ReconciliationResult.match_score
      ReconciliationResult.amount_match ReconciliationResult.message].
    split; [reflexivity|]. split; [reflexivity|]. split.
    + intros inv' po' Hin' Hid' Hpin' Hpid'.
      rewrite (find_invoice_In _ inv' Hin' Hid') in Hinv. injection Hinv as ->.
      rewrite (find_po_In _ po' Hpin' Hpid') in Hpo. injection Hpo as ->.
      pose proof (mock_amounts_off_tolerance inv po Hin' Hpin') as Hoff.
      pose proof (Decimal_lt_iff
                    (Qabs (Invoice.amount inv - PurchaseOrder.total_amount po))
                    (1 # 100)%Q) as Hlt.
      cbn zeta. split; [exact Hlt|]. split.
      * rewrite Hlt. split; [apply Qlt_le_weak|].
        intros Hle. apply Qle_lt_or_eq in Hle as [Hl|He]; [exact Hl|contradiction].
      * destruct (String.eqb_spec (Invoice.vendor_id inv) (PurchaseOrder.vendor_id po))
          as [Hv|Hv];
          destruct (Decimal_lt _ _); cbn [andb];
          (split; [split; [intros H | intros [H1 H2]] | intros H]);
          try reflexivity; try discriminate; try contradiction;
          try (split; [assumption|reflexivity]);
          try (exfalso; apply float_lit_1_neq_half; symmetry; assumption);
          try (exfalso; apply H; split; [assumption|reflexivity]).
    + apply find_invoice_Some in Hinv as [Hin Hid].
      apply find_po_Some in Hpo as [Hpin Hpid].
      intros [Hno|Hno]; exfalso; [exact (Hno inv Hin Hid)|exact (Hno po Hpin Hpid)].
  - eexists. split.
    { destruct (timeout_drawn (draws w (cursor w))); [reflexivity|].
      cbn beta iota zeta. rewrite Hinv; try rewrite Hpo. reflexivity. }
    cbn [ReconciliationResult.invoice_id
      ReconciliationResult.po_id ReconciliationResult.match_score
      ReconciliationResult.amount_match ReconciliationResult.message].
    split; [reflexivity|]. split; [reflexivity|]. split; [|auto].
    intros inv' po' _ _ Hpin' Hpid'.
    rewrite (find_po_In _ po' Hpin' Hpid') in Hpo. discriminate.
  - eexists. split.
    { destruct (timeout_drawn (draws w (cursor w))); [reflexivity|].
      cbn beta iota zeta. rewrite Hinv; try rewrite Hpo. reflexivity. }
    cbn [ReconciliationResult.invoice_id
      ReconciliationResult.po_id ReconciliationResult.match_score
      ReconciliationResult.amount_match ReconciliationResult.message].
    split; [reflexivity|]. split; [reflexivity|]. split; [|auto].
    intros inv' po' Hin' Hid' _ _.
    rewrite (find_invoice_In _ inv' Hin' Hid') in Hinv. discriminate.
Qed.

(** On the tables of the code, with no timeout drawn: invoice ['INV-001']
    against order ['PO-101'], of the same vendor and amount, scores [1.0];
    invoice ['INV-002'] against ['PO-101'], of the same vendor and another
    amount, scores [0.5]; the unknown invoice ['INV-999'] scores [0.0]. *)
Lemma match_invoice_to_po_scores_witness :
  (exists r : ReconciliationResult.t,
      fst (match_invoice_to_po (MatchInvoiceInput.mk "INV-001" "PO-101") (world_of []))
      = inr r /\
      ReconciliationResult.amount_match r = true /\
      ReconciliationResult.match_score r = float_lit (1 # 1)%Q) /\
  (exists r : ReconciliationResult.t,
      fst (match_invoice_to_po (MatchInvoiceInput.mk "INV-002" "PO-101") (world_of []))
      = inr r /\
      ReconciliationResult.amount_match r = false /\
      ReconciliationResult.match_score r = float_lit (1 # 2)%Q) /\
  (exists r : ReconciliationResult.t,
      fst (match_invoice_to_po (MatchInvoiceInput.mk "INV-999" "PO-101") (world_of []))
      = inr r /\
      ReconciliationResult.match_score r = float_lit (0 # 1)%Q /\
      ReconciliationResult.message r = "Invoice or PO not found").
Proof.
  assert (Hdraw : timeout_drawn (draws (world_of []) (cursor (world_of []))) = false)
    by (vm_compute; reflexivity).
  split; [|split].
  - destruct (match_invoice_to_po_scores (MatchInvoiceInput.mk "INV-001" "PO-101")
                (world_of [])) as (r & Hcall & _ & _ & Hfound & _).
    rewrite Hdraw in Hcall. exists r. split; [rewrite Hcall; reflexivity|].
    destruct (Hfound
                (Invoice.mk "INV-001" "V001" "Acme Corp" (1000000 # 100)%Q "USD" None []
                   "pending")
                (PurchaseOrder.mk "PO-101" "V001" (1000000 # 100)%Q "open" [])
                ltac:(cbn; auto) eq_refl ltac:(cbn; auto) eq_refl)
      as (Hlt & _ & Hone & _).
    assert (Ham : ReconciliationResult.amount_match r = true)
      by (apply Hlt; vm_compute; reflexivity).
    split; [exact Ham|]. apply Hone. split; [reflexivity|exact Ham].
  - destruct (match_invoice_to_po_scores (MatchInvoiceInput.mk "INV-002" "PO-101")
                (world_of [])) as (r & Hcall & _ & _ & Hfound & _).
    rewrite Hdraw in Hcall. exists r. split; [rewrite Hcall; reflexivity|].
    destruct (Hfound
                (Invoice.mk "INV-002" "V001" "Acme Corp" (50000 # 100)%Q "USD" None []
                   "pending")
                (PurchaseOrder.mk "PO-101" "V001" (1000000 # 100)%Q "open" [])
                ltac:(cbn; auto) eq_refl ltac:(cbn; auto) eq_refl)
      as (Hlt & _ & _ & Hhalf).
    assert (Ham : ReconciliationResult.amount_match r = false).
    { destruct (ReconciliationResult.amount_match r); [|reflexivity].
      pose proof (proj1 Hlt eq_refl) as Habs. vm_compute in Habs. discriminate. }
    split; [exact Ham|]. apply Hhalf. intros [_ Ham']. congruence.
  - destruct (match_invoice_to_po_scores (MatchInvoiceInput.mk "INV-999" "PO-101")
                (world_of [])) as (r & Hcall & _ & _ & _ & Hnot).
    rewrite Hdraw in Hcall. exists r. split; [rewrite Hcall; reflexivity|].
    destruct Hnot as (Hscore & _ & Hmsg); [|split; assumption].
    left. intros inv Hin. cbn in Hin.
    destruct Hin as [<-|[<-|[<-|[]]]]; discriminate.
Defined.

(** The three kinds of result on the tables of the code: a full match, a
    found pair that does not match, and an unknown invoice. *)
Example match_INV_001_PO_101 :
  fst (match_invoice_to_po (MatchInvoiceInput.mk "INV-001" "PO-101") (world_of []))
  = inr (ReconciliationResult.mk "INV-001" "PO-101" (float_lit (1 # 1)%Q) true "Match found").
Proof. vm_compute. reflexivity. Qed.

Example match_INV_002_PO_101 :
  fst (match_invoice_to_po (MatchInvoiceInput.mk "INV-002" "PO-101") (world_of []))
  = inr (ReconciliationResult.mk "INV-002" "PO-101" (float_lit (1 # 2)%Q) false "Match found").
Proof. vm_compute. reflexivity. Qed.

Example match_unknown_invoice :
  fst (match_invoice_to_po (MatchInvoiceInput.mk "INV-999" "PO-101") (world_of []))
  = inr (ReconciliationResult.mk "INV-999" "PO-101" (float_lit (0 # 1)%Q) false
           "Invoice or PO not found").
Proof. vm_compute. reflexivity. Qed.

Example match_timeout :
  fst (match_invoice_to_po (MatchInvoiceInput.mk "INV-001" "PO-101") (world_of [true]))
  = inl erp_timeout.
Proof. vm_compute. reflexivity. Qed.

(* ===================================================================== *)
(** * Properties of the reconciliation step *)
(* ===================================================================== *)

Lemma match_invoice_to_po_call (args : MatchInvoiceInput.t) :
  exists r : ReconciliationResult.t, forall w : World,
    match_invoice_to_po args w
    = (if timeout_drawn (draws w (cursor w)) then inl erp_timeout else inr r,
       advance 1 w).
Proof.
  unfold match_invoice_to_po, bind.
  destruct (find_invoice (MatchInvoiceInput.invoice_id args) (mock_selection None 100))
    as [inv|] eqn:Hinv;
    [destruct (find_po (MatchInvoiceInput.po_id args) _mock_pos) as [po|] eqn:Hpo|];
    eexists; intros w; rewrite _mock_invoices_call;
    (destruct (timeout_drawn (draws w (cursor w))); [reflexivity|]);
    unfold ret; rewrite Hinv; try rewrite Hpo; reflexivity.
Qed.

(** One turn of the loop calls the matcher once: it consumes one draw and
    records either the match or the message of the timeout. *)
Lemma reconcile_one_call (inv : Invoice.t) :
  exists m : ReconciliationResult.t, forall w : World,
    reconcile_one inv w
    = (if timeout_drawn (draws w (cursor w))
       then ReconciledItem.mk inv None (Some "ERP API timeout")
       else ReconciledItem.mk inv (Some m) None,
       advance 1 w).
Proof.
  destruct (match_invoice_to_po_call
              (MatchInvoiceInput.mk (Invoice.invoice_id inv)
                 (po_id_for (Invoice.vendor_id inv)))) as [m Hm].
  exists m. intros w. unfold reconcile_one, run_match_invoice. rewrite Hm.
  destruct (timeout_drawn (draws w (cursor w))); reflexivity.
Qed.

Lemma reconcile_one_world (inv : Invoice.t) (w : World) :
  snd (reconcile_one inv w) = advance 1 w.
Proof. destruct (reconcile_one_call inv) as [m Hm]. rewrite Hm. reflexivity. Qed.

Lemma reconcile_items_cons (inv : Invoice.t) (rest : list Invoice.t) (w : World) :
  reconcile_items (inv :: rest) w
  = (fst (reconcile_one inv w) :: fst (reconcile_items rest (advance 1 w)),
     snd (reconcile_items rest (advance 1 w))).
Proof.
  cbn [reconcile_items]. rewrite <- (reconcile_one_world inv w).
  destruct (reconcile_one inv w) as [item w']. cbn [fst snd].
  destruct (reconcile_items rest w') as [items w'']. reflexivity.
Qed.

Lemma reconcile_items_length (invoices : list Invoice.t) (w : World) :
  length (fst (reconcile_items invoices w)) = length invoices.
Proof.
  revert w. induction invoices as [|inv rest IH]; intros w; [reflexivity|].
  rewrite reconcile_items_cons. cbn. f_equal. apply IH.
Qed.

Lemma reconcile_items_world (invoices : list Invoice.t) (w : World) :
  snd (reconcile_items invoices w) = advance (length invoices) w.
Proof.
  revert w. induction invoices as [|inv rest IH]; intros w.
  - cbn. symmetry. apply advance_0.
  - rewrite reconcile_items_cons. cbn [snd length]. rewrite IH, advance_advance.
    reflexivity.
Qed.

(** The item at position [i] is the one turn of the loop on invoice [i], in
    the world left by the [i] turns before it. *)
Lemma reconcile_items_lookup (invoices : list Invoice.t) (w : World)
    (i : nat) (inv : Invoice.t) :
  invoices !! i = Some inv ->
  fst (reconcile_items invoices w) !! i = Some (fst (reconcile_one inv (advance i w))).
Proof.
  revert w i. induction invoices as [|inv0 rest IH]; intros w i Hi; [discriminate|].
  rewrite reconcile_items_cons. cbn [fst]. destruct i as [|i].
  - injection Hi as ->. rewrite advance_0. reflexivity.
  - change (fst (reconcile_items rest (advance 1 w)) !! i
            = Some (fst (reconcile_one inv (advance (S i) w)))).
    rewrite (IH (advance 1 w) i Hi), advance_advance. reflexivity.
Qed.

(** ** The wrapper around [run_fetch_invoices] *)

Section FirstSuccess.
Context {W E Args A : Type} `{ExceptionClass E}.
Implicit Types (fn : Args -> Call W E A) (args : Args) (w : W).

(** Among the first [m] calls either all raise or there is a first one
    that returns. *)
Lemma all_raise_or_first_success fn args (m : nat) w :
  all_raise fn args m w \/
  exists (k : nat) (r : A), (k <= m)%nat /\ first_success fn args k r w.
Proof.
  induction m as [|m IH].
  - left. intros i Hi. lia.
  - destruct IH as [Hall|(k & r & Hk & Hfs)].
    + destruct (outcome_at fn args m w) as [e|r] eqn:Hm.
      * left. intros i Hi. destruct (decide (i = m)) as [->|Hne]; [eauto|].
        apply Hall. lia.
      * right. exists (S m), r. split; [lia|]. split; [lia|].
        replace (S m - 1)%nat with m by lia. auto.
    + right. exists k, r. split; [lia|exact Hfs].
Qed.

Lemma first_success_not_all_raise fn args (k n : nat) (r : A) w :
  (k <= n)%nat -> first_success fn args k r w -> ~ all_raise fn args n w.
Proof.
  intros Hk (Hk1 & _ & Hok) Hall.
  destruct (Hall (k - 1)%nat ltac:(lia)) as [e He]. congruence.
Qed.

(** Among the first [m] calls: all raise instances of [Exception], or a
    first one returns after such exceptions only, or a first one raises an
    exception of another class after such exceptions only. *)
Lemma all_caught_or_first_other fn args (m : nat) w :
  all_caught fn args m w
  \/ (exists (k : nat) (r : A),
         (1 <= k <= m)%nat /\ first_success fn args k r w /\
         all_caught fn args (k - 1) w)
  \/ (exists (j : nat) (e : E) (b : BaseOnly),
         (j < m)%nat /\ all_caught fn args j w /\
         outcome_at fn args j w = inl e /\ not_Exception e = Some b).
Proof.
  induction m as [|m IH].
  - left. intros i Hi. lia.
  - destruct IH as [Hall|[(k & r & Hk & Hfs & Hc)|(j & e & b & Hj & Hc & He & Hb)]].
    + destruct (outcome_at fn args m w) as [e|r] eqn:Hm.
      * destruct (not_Exception e) as [b|] eqn:Hb.
        -- right. right. exists m, e, b. auto.
        -- left. intros i Hi. destruct (decide (i = m)) as [->|Hne]; [eauto|].
           apply Hall. lia.
      * right. left. exists (S m), r. split; [lia|].
        replace (S m - 1)%nat with m by lia.
        split; [|exact Hall]. split; [lia|].
        replace (S m - 1)%nat with m by lia.
        split; [apply all_caught_all_raise, Hall|exact Hm].
    + right. left. exists k, r. split; [lia|]. auto.
    + right. right. exists j, e, b. split; [lia|]. auto.
Qed.

(** The four ways the wrapper ends. *)
Lemma run_with_retry_and_fallback_outcomes fn args (fb : A) (n : Z) w :
  (n <= 0 /\ run_with_retry_and_fallback fn args fb n w = (inr (fb, None, true), w))
  \/ (1 <= n /\ all_caught fn args (Z.to_nat n) w /\
      exists e, outcome_at fn args (Z.to_nat n - 1) w = inl e /\
                run_with_retry_and_fallback fn args fb n w
                = (inr (fb, Some e, true), world_after fn args (Z.to_nat n) w))
  \/ (exists (k : nat) (r : A),
        1 <= Z.of_nat k <= n /\ first_success fn args k r w /\
        all_caught fn args (k - 1) w /\
        run_with_retry_and_fallback fn args fb n w
        = (inr (r, None, false), world_after fn args k w))
  \/ (exists (j : nat) (e : E) (b : BaseOnly),
        Z.of_nat j < n /\ all_caught fn args j w /\
        outcome_at fn args j w = inl e /\ not_Exception e = Some b /\
        run_with_retry_and_fallback fn args fb n w
        = (inl b, world_after fn args (S j) w)).
Proof.
  destruct (Z_le_gt_dec n 0) as [Hn|Hn].
  - left. split; [exact Hn|]. unfold run_with_retry_and_fallback.
    rewrite range_nonpos by exact Hn. reflexivity.
  - right. destruct (all_caught_or_first_other fn args (Z.to_nat n) w)
      as [Hall|[(k & r & Hk & Hfs & Hc)|(j & e & b & Hj & Hc & He & Hb)]].
    + left. split; [lia|]. split; [exact Hall|].
      destruct (Hall (Z.to_nat n - 1)%nat ltac:(lia)) as (e & He & _).
      exists e. split; [exact He|].
      unfold run_with_retry_and_fallback, range.
      destruct (Z.to_nat n) as [|m] eqn:Hm; [lia|].
      replace (S m - 1)%nat with m in He by lia.
      apply retry_loop_exhausted; auto. lia.
    + right. left. exists k, r.
      split; [lia|]. split; [exact Hfs|]. split; [exact Hc|].
      unfold run_with_retry_and_fallback, range.
      apply retry_loop_first_success; auto; lia.
    + right. right. exists j, e, b.
      split; [lia|]. split; [exact Hc|]. split; [exact He|]. split; [exact Hb|].
      unfold run_with_retry_and_fallback, range.
      apply (retry_loop_not_caught fn args fb n (Z.to_nat n) 0 j None w e b); auto; lia.
Qed.
End FirstSuccess.

(** The three ways the wrapper ends on an operation of the modelled code,
    whose exceptions are all instances of [Exception]. *)
Lemma run_with_retry_and_fallback_cases {W Args A : Type}
    (fn : Args -> Call W exn A) (args : Args) (fb : A) (n : Z) (w : W) :
  (n <= 0 /\ run_with_retry_and_fallback fn args fb n w = (inr (fb, None, true), w))
  \/ (1 <= n /\ all_raise fn args (Z.to_nat n) w /\
      exists e, outcome_at fn args (Z.to_nat n - 1) w = inl e /\
                run_with_retry_and_fallback fn args fb n w
                = (inr (fb, Some e, true), world_after fn args (Z.to_nat n) w))
  \/ (exists (k : nat) (r : A),
        1 <= Z.of_nat k <= n /\ first_success fn args k r w /\
        run_with_retry_and_fallback fn args fb n w
        = (inr (r, None, false), world_after fn args k w)).
Proof.
  destruct (run_with_retry_and_fallback_outcomes fn args fb n w)
    as [H|[(Hn & Hall & H)|[(k & r & Hk & Hfs & _ & H)|(j & e & b & _)]]].
  - left. exact H.
  - right. left. split; [exact Hn|]. split; [apply all_caught_all_raise, Hall|exact H].
  - right. right. exists k, r. auto.
  - destruct b.
Qed.

Lemma world_after_fetch (vendor_id : option string) (i : nat) (w : World) :
  world_after run_fetch_invoices (vendor_id, 5) i w = advance i w.
Proof.
  revert w. induction i as [|i IH]; intros w.
  - cbn. symmetry. apply advance_0.
  - cbn [world_after]. rewrite run_fetch_invoices_call by lia. cbn [snd].
    rewrite IH, advance_advance. reflexivity.
Qed.

(** Attempt [i] of the fetch raises exactly when draw [i] from the start of
    the step is a timeout; when it returns, it returns the selection. *)
Lemma outcome_at_fetch (vendor_id : option string) (i : nat) (w : World) :
  outcome_at run_fetch_invoices (vendor_id, 5) i w
  = if timeout_drawn (draws w (cursor w + i)%nat)
    then inl erp_timeout else inr (mock_selection vendor_id 5).
Proof.
  unfold outcome_at. rewrite world_after_fetch, run_fetch_invoices_call by lia.
  reflexivity.
Qed.

Lemma first_success_fetch (vendor_id : option string) (k : nat)
    (invoices : list Invoice.t) (w : World) :
  first_success run_fetch_invoices (vendor_id, 5) k invoices w ->
  invoices = mock_selection vendor_id 5.
Proof.
  intros (_ & _ & Hok). rewrite outcome_at_fetch in Hok.
  destruct (timeout_drawn _); congruence.
Qed.

Lemma run_fetch_invoices_returns (args : option string * Z) (w w' : World)
    (r : list Invoice.t) :
  run_fetch_invoices args w = (inr r, w') -> r = mock_selection (fst args) (snd args).
Proof.
  unfold run_fetch_invoices, new_FetchInvoicesInput, bind.
  destruct ((1 <=? snd args) && (snd args <=? 100)); [|discriminate].
  unfold ret at 1. unfold fetch_pending_invoices, bind.
  cbn [FetchInvoicesInput.vendor_id FetchInvoicesInput.limit].
  rewrite _mock_invoices_call.
  destruct (timeout_drawn (draws w (cursor w))); [discriminate|].
  unfold ret. congruence.
Qed.





(** The step on a generator whose second draw, the one of the first match,
    is a timeout: the first item carries the error, the next two a match. *)
Example reconcile_step_timeout_inline :
  (fun r => (map ReconciledItem.error (fst (fst r)), snd (fst r), snd r))
    (fst (reconcile_step 3 None 5 (world_of [false; true])))
  = ([Some "ERP API timeout"; None; None], None, false).
Proof. vm_compute. reflexivity. Qed.

(** The three ways [reconcile_step] ends on the call the graph makes. *)
Lemma reconcile_step_cases (MAX_TOOL_RETRIES : Z) (vendor_id : option string) (w : World) :
  (MAX_TOOL_RETRIES <= 0 /\
   reconcile_step MAX_TOOL_RETRIES vendor_id 5 w = (([], None, true), w))
  \/ (1 <= MAX_TOOL_RETRIES /\
      all_raise run_fetch_invoices (vendor_id, 5) (Z.to_nat MAX_TOOL_RETRIES) w /\
      reconcile_step MAX_TOOL_RETRIES vendor_id 5 w
      = (([], Some erp_timeout, true), advance (Z.to_nat MAX_TOOL_RETRIES) w))
  \/ (exists k : nat,
        1 <= Z.of_nat k <= MAX_TOOL_RETRIES /\
        first_success run_fetch_invoices (vendor_id, 5) k (mock_selection vendor_id 5) w /\
        reconcile_step MAX_TOOL_RETRIES vendor_id 5 w
        = ((fst (reconcile_items (take 3 (mock_selection vendor_id 5)) (advance k w)),
            None, false),
           snd (reconcile_items (take 3 (mock_selection vendor_id 5)) (advance k w)))).
Proof.
  unfold reconcile_step.
  destruct (run_with_retry_and_fallback_cases run_fetch_invoices (vendor_id, 5) []
              MAX_TOOL_RETRIES w)
    as [[Hn ->]|[(Hn & Hall & e & He & ->)|(k & r & Hk & Hfs & ->)]].
  - left. split; [exact Hn|]. reflexivity.
  - right. left. split; [exact Hn|]. split; [exact Hall|].
    rewrite outcome_at_fetch in He. rewrite world_after_fetch.
    destruct (timeout_drawn _); [|discriminate]. injection He as <-. reflexivity.
  - right. right. exists k. split; [exact Hk|].
    pose proof (first_success_fetch _ _ _ _ Hfs) as ->.
    split; [exact Hfs|]. rewrite world_after_fetch.
    destruct (reconcile_items _ _); reflexivity.
Qed.

(* ===================================================================== *)
(** * Properties of the float comparisons *)
(* ===================================================================== *)

(** The sign of a zero plays no part in a comparison. *)
Lemma float_ge_or_0 (a t : float) : float_ge (float_or_0 a) t = float_ge a t.
Proof. destruct a as [[|]|[|]| |[|] m e], t as [[|]|[|]| |[|] m' e']; reflexivity. Qed.

Lemma float_value_or_0 (a : float) : float_value (float_or_0 a) = float_value a.
Proof. destruct a as [[|]|[|]| |[|] m e]; reflexivity. Qed.

Lemma compare_cont_Eq_antisym (p q : positive) :
  Pos.compare_cont Eq q p = CompOpp (Pos.compare_cont Eq p q).
Proof. symmetry. apply (Pos.compare_cont_antisym p q Eq). Qed.

Lemma SFcompare_Lt_Gt (x y : float) :
  SFcompare x y = Some Lt -> SFcompare y x = Some Gt.
Proof.
  destruct x as [[|]|[|]| |[|] m e], y as [[|]|[|]| |[|] m' e'];
    cbn; try discriminate; try reflexivity;
    rewrite (Z.compare_antisym e e'), (compare_cont_Eq_antisym m m');
    destruct (e ?= e'); cbn; try discriminate; try reflexivity;
    destruct (Pos.compare_cont Eq m m'); cbn; try discriminate; reflexivity.
Qed.

(** An amount below the threshold is not at or above it. *)
Lemma float_lt_not_ge (a t : float) : float_lt a t = true -> float_ge a t = false.
Proof.
  unfold float_lt, float_ge, SFltb, SFleb.
  destruct (SFcompare a t) as [[| |]|] eqn:Hc; try discriminate.
  intros _. rewrite (SFcompare_Lt_Gt a t Hc). reflexivity.
Qed.

(* ===================================================================== *)
(** * Properties of the workflow *)
(* ===================================================================== *)

Section GraphFacts.
Variable HITL_APPROVAL_THRESHOLD_USD : float.
Variable MAX_TOOL_RETRIES : Z.
Variable format_usd : float -> string.
Variable Decimal_text : float -> string.

Abbreviation run_ := (run HITL_APPROVAL_THRESHOLD_USD MAX_TOOL_RETRIES format_usd Decimal_text).
Abbreviation run_thread_ :=
  (run_thread HITL_APPROVAL_THRESHOLD_USD MAX_TOOL_RETRIES format_usd Decimal_text).
Abbreviation resume_ :=
  (resume HITL_APPROVAL_THRESHOLD_USD format_usd Decimal_text).
Abbreviation check_ :=
  (check_approval_node HITL_APPROVAL_THRESHOLD_USD format_usd Decimal_text).

(** The node sets [status] only on the exhausted fetch. *)
Lemma reconcile_node_exhausted (state : State.t) (w : World) :
  1 <= MAX_TOOL_RETRIES ->
  all_raise run_fetch_invoices (State.vendor_id state, 5) (Z.to_nat MAX_TOOL_RETRIES) w ->
  reconcile_node MAX_TOOL_RETRIES state w
  = (Updates.mk (Some []) None None None (Some (Some "ERP API timeout"))
       (Some (default 0 (State.retry_count state) + 1)) (Some true)
       (Some Status.failed) None,
     advance (Z.to_nat MAX_TOOL_RETRIES) w).
Proof.
  intros Hn Hall. unfold reconcile_node.
  destruct (reconcile_step_cases MAX_TOOL_RETRIES (State.vendor_id state) w)
    as [[Hn' _]|[(_ & _ & ->)|(k & Hk & Hfs & _)]].
  - lia.
  - reflexivity.
  - exfalso. apply (first_success_not_all_raise _ _ k (Z.to_nat MAX_TOOL_RETRIES) _ _
                       ltac:(lia) Hfs Hall).
Qed.

Lemma reconcile_node_no_attempt (state : State.t) (w : World) :
  MAX_TOOL_RETRIES <= 0 ->
  reconcile_node MAX_TOOL_RETRIES state w
  = (Updates.mk (Some []) None None None (Some None)
       (Some (default 0 (State.retry_count state) + 0)) (Some true) None None,
     w).
Proof.
  intros Hn. unfold reconcile_node.
  destruct (reconcile_step_cases MAX_TOOL_RETRIES (State.vendor_id state) w)
    as [[_ ->]|[(Hn' & _)|(k & Hk & _)]]; [reflexivity|lia|lia].
Qed.

(** On a fetch that returns, the node reports no error; it proposes the
    payment of the first fetched invoice when there is one. *)
Lemma reconcile_node_fetched (state : State.t) (w : World) (k : nat) :
  1 <= Z.of_nat k <= MAX_TOOL_RETRIES ->
  first_success run_fetch_invoices (State.vendor_id state, 5) k
    (mock_selection (State.vendor_id state) 5) w ->
  let selection := mock_selection (State.vendor_id state) 5 in
  let reconciled := fst (reconcile_items (take 3 selection) (advance k w)) in
  reconcile_node MAX_TOOL_RETRIES state w
  = (Updates.mk (Some reconciled)
       (match selection with
        | first :: _ =>
            Some (PendingPayment.mk (Invoice.invoice_id first)
                    (float_of_Decimal (Invoice.amount first)) (Invoice.vendor_id first))
        | [] => None
        end)
       None None (Some None)
       (Some (default 0 (State.retry_count state) + 0)) (Some false) None None,
     advance (k + length reconciled) w).
Proof.
  intros Hk Hfs selection reconciled. unfold reconcile_node.
  destruct (reconcile_step_cases MAX_TOOL_RETRIES (State.vendor_id state) w)
    as [[Hn' _]|[(_ & Hall & _)|(k' & Hk' & Hfs' & ->)]].
  - lia.
  - exfalso. apply (first_success_not_all_raise _ _ k (Z.to_nat MAX_TOOL_RETRIES) _ _
                       ltac:(lia) Hfs Hall).
  - assert (k' = k) as ->.
    { destruct Hfs as (? & Ha & Ho), Hfs' as (? & Ha' & Ho').
      destruct (lt_eq_lt_dec k k') as [[Hlt|Heq]|Hgt]; [|exact (eq_sym Heq)|].
      - destruct (Ha' (k - 1)%nat ltac:(lia)) as [e He]. congruence.
      - destruct (Ha (k' - 1)%nat ltac:(lia)) as [e He]. congruence. }
    fold selection. rewrite reconcile_items_world.
    fold reconcile_items. fold selection. fold reconcile_items.
    change (fst (reconcile_items (take 3 selection) (advance k w))) with reconciled.
    assert (Hlen : length reconciled = length (take 3 selection))
      by apply reconcile_items_length.
    rewrite <- Hlen, advance_advance.
    cbn [err_truthy andb].
    destruct selection as [|first rest] eqn:Hsel.
    + destruct reconciled; [reflexivity|discriminate].
    + pose proof (reconcile_items_lookup (take 3 (first :: rest)) (advance k w) 0 first
                    eq_refl) as H0.
      fold reconciled in H0.
      destruct reconciled as [|item items]; [discriminate|].
      cbn in H0. injection H0 as ->.
      unfold reconcile_one.
      destruct (run_match_invoice _ _ _) as [[e|m] w']; reflexivity.
Qed.

(** C1, as amended. For a run on a thread whose persisted status is not
    ['failed'] (every run of a new thread is one), after the [reconcile] node
    the status is ['failed'] exactly when at least one attempt is allowed
    ([MAX_TOOL_RETRIES >= 1]) and the fetch raised on every attempt of the
    retry budget, the reconciled list being empty.  In that case
    [reconciled] is the empty list, [used_fallback] is true, the router goes
    to the end, and the run finishes after the [reconcile] node alone: the
    pending payment and the payment result are the ones the thread held
    before the run, none on a new thread.  When no attempt is allowed, the
    fallback is substituted with no error and the status is left as it
    was.  The node never clears a status: on a thread whose persisted status
    is ['failed'] the status is ['failed'] after the node whatever the fetch
    does. *)
Theorem reconcile_failed_iff_fetch_exhausted (persisted : State.t)
    (vendor_id : option string) (w : World) :
  let entry_state := entry persisted vendor_id in
  let state := merge entry_state (fst (reconcile_node MAX_TOOL_RETRIES entry_state w)) in
  (State.status persisted <> Some Status.failed ->
   (State.status state = Some Status.failed <->
    (1 <= MAX_TOOL_RETRIES /\
     all_raise run_fetch_invoices (vendor_id, 5) (Z.to_nat MAX_TOOL_RETRIES) w) /\
    State.reconciled state = Some [])
   /\
   (State.status state = Some Status.failed ->
    State.reconciled state = Some [] /\
    State.used_fallback state = Some true /\
    State.pending_payment state = State.pending_payment persisted /\
    State.result state = State.result persisted /\
    route_after_reconcile state = END /\
    run_thread_ persisted vendor_id w
    = ((Finished state, [(Node.reconcile, state)]),
       advance (Z.to_nat MAX_TOOL_RETRIES) w))
   /\
   (MAX_TOOL_RETRIES <= 0 ->
    State.status state = State.status persisted /\
    State.used_fallback state = Some true /\
    State.reconciled state = Some [] /\
    State.last_error state = None))
  /\
  (State.status persisted = Some Status.failed ->
   State.status state = Some Status.failed).
Proof.
  intros entry_state state. subst state entry_state.
  unfold run_thread, from_start.
  destruct (reconcile_step_cases MAX_TOOL_RETRIES vendor_id w)
    as [[Hn _]|[(Hn & Hall & _)|(k & Hk & Hfs & _)]].
  - rewrite (reconcile_node_no_attempt (entry persisted vendor_id) w Hn). cbn.
    split; [|auto]. intros Hst.
    split; [split|split]; [contradiction | intros [[H _] _]; lia | contradiction | auto].
  - rewrite (reconcile_node_exhausted (entry persisted vendor_id) w Hn Hall). cbn.
    split; [|auto]. intros Hst.
    split; [split|split]; auto 10. intros Hn'. lia.
  - rewrite (reconcile_node_fetched (entry persisted vendor_id) w k Hk Hfs). cbn.
    split; [|auto]. intros Hst.
    split; [split|split]; [contradiction | | contradiction | intros Hn'; lia].
    intros [[_ Hall] _]. exfalso.
    apply (first_success_not_all_raise _ _ k (Z.to_nat MAX_TOOL_RETRIES) _ _
             ltac:(lia) Hfs Hall).
Qed.

(** C3. For a state with a pending payment: when the amount is at or above
    the threshold, the node builds the prompt with the question, the invoice
    id, the amount and the threshold and suspends the run, to continue only
    with a boolean decision; when the amount is below the threshold, the
    node returns [approval = True], [status = 'pending'] and
    [hitl_prompt = None] without suspending. *)
Theorem check_approval_threshold (state : State.t) (p : PendingPayment.t) :
  State.pending_payment state = Some p ->
  let amount := PendingPayment.amount p in
  let prompt :=
    Prompt.mk
      ("Ready to pay this $" +:+ format_usd (float_or_0 amount) +:+ " invoice. Approve?")
      (PendingPayment.invoice_id p) (float_or_0 amount) HITL_APPROVAL_THRESHOLD_USD in
  (float_ge amount HITL_APPROVAL_THRESHOLD_USD = true ->
   check_ state None = Interrupt prompt /\
   float_value (Prompt.amount_usd prompt) = float_value amount /\
   (forall trace w,
       from_check_approval HITL_APPROVAL_THRESHOLD_USD format_usd Decimal_text
         state None trace w
       = ((Suspended state prompt, trace), w)) /\
   (forall decision : bool,
       exists updates, check_ state (Some decision) = Return updates /\
                       Updates.approval updates = Some decision))
  /\
  (float_lt amount HITL_APPROVAL_THRESHOLD_USD = true ->
   forall resume_value : option bool,
     check_ state resume_value
     = Return (Updates.mk None None (Some true) (Some None) None None None
                 (Some Status.pending) None)).
Proof.
  intros Hp amount prompt. split.
  - intros Hge.
    assert (Hnode : check_ state None = Interrupt prompt).
    { unfold check_approval_node. rewrite Hp.
      fold amount. rewrite float_ge_or_0, Hge. reflexivity. }
    split; [exact Hnode|]. split; [apply float_value_or_0|]. split.
    + intros trace w. unfold from_check_approval. rewrite Hnode. reflexivity.
    + intros decision. eexists. split.
      * unfold check_approval_node. rewrite Hp.
        fold amount. rewrite float_ge_or_0, Hge. reflexivity.
      * reflexivity.
  - intros Hlt resume_value. apply float_lt_not_ge in Hlt.
    unfold check_approval_node. rewrite Hp.
    fold amount. rewrite float_ge_or_0, Hlt. reflexivity.
Qed.

(** The node [reconcile] sets neither [result] nor [approval]. *)
Lemma reconcile_node_leaves_result (state : State.t) (w : World) :
  Updates.result (fst (reconcile_node MAX_TOOL_RETRIES state w)) = None /\
  Updates.approval (fst (reconcile_node MAX_TOOL_RETRIES state w)) = None.
Proof.
  unfold reconcile_node.
  destruct (reconcile_step MAX_TOOL_RETRIES (State.vendor_id state) 5 w)
    as [[[reconciled err] used_fallback] w'].
  destruct (err_truthy err && used_fallback && negb (list_truthy reconciled));
    [split; reflexivity|].
  destruct reconciled; split; reflexivity.
Qed.

(** A run that suspends, on any thread, does so in [check_approval], on the
    state left by [reconcile], which holds the payment result the entry
    state held. *)
Lemma from_start_suspended (entry_state : State.t) (w : World)
    (state : State.t) (prompt : Prompt.t) :
  fst (fst (from_start HITL_APPROVAL_THRESHOLD_USD MAX_TOOL_RETRIES format_usd
              Decimal_text entry_state w)) = Suspended state prompt ->
  check_ state None = Interrupt prompt /\
  State.result state = State.result entry_state.
Proof.
  unfold from_start.
  pose proof (reconcile_node_leaves_result entry_state w) as [Hres _].
  destruct (reconcile_node MAX_TOOL_RETRIES entry_state w) as [updates w'].
  cbn [fst] in Hres.
  destruct (route_after_reconcile (merge entry_state updates)) as [[| |]|];
    cbn [fst]; try discriminate.
  unfold from_check_approval.
  destruct (check_ (merge entry_state updates) None) as [u|pr] eqn:Hnode.
  - destruct (route_after_approval _) as [[| |]|]; cbn [fst]; try discriminate.
    unfold from_execute_payment. destruct (execute_payment_node _ _ _) as [[e|u'] w''];
      cbn [fst]; discriminate.
  - cbn [fst]. intros H. injection H as <- <-. split; [exact Hnode|].
    cbn. rewrite Hres. reflexivity.
Qed.

(** The suspended node, run again with a decision, returns it. *)
Lemma check_approval_resumed (state : State.t) (prompt : Prompt.t) (approved : bool) :
  check_ state None = Interrupt prompt ->
  check_ state (Some approved)
  = Return (Updates.mk None None (Some approved) (Some (Some prompt)) None None None
              (Some (if approved then Status.pending else Status.cancelled)) None).
Proof.
  intros Hnode. unfold check_approval_node in Hnode |- *.
  destruct (negb (float_ge _ _)); [discriminate|].
  cbn in Hnode |- *. injection Hnode as <-. destruct approved; reflexivity.
Qed.

(** C8, as amended. For a run, on any thread, that suspended and is resumed
    with a decision: the node sets [approval] to the decision and [status]
    to ['cancelled'] on a rejection and to ['pending'] on an approval.  On a
    rejection the router goes to the end: [check_approval] is the only node
    that runs, no payment call is made and [result] is left as the thread
    held it before the run, unset on a new thread.  On an approval the
    router goes to [execute_payment], which records the payment result and
    the final status ['paid']. *)
Theorem resume_with_decision (persisted : State.t) (vendor_id : option string)
    (w0 : World) (state : State.t) (prompt : Prompt.t) :
  fst (fst (run_thread_ persisted vendor_id w0)) = Suspended state prompt ->
  forall (approved : bool) (w : World),
    let updates :=
      Updates.mk None None (Some approved) (Some (Some prompt)) None None None
        (Some (if approved then Status.pending else Status.cancelled)) None in
    let decided := merge state updates in
    check_ state (Some approved) = Return updates /\
    State.approval decided = Some approved /\
    (approved = false ->
     State.status decided = Some Status.cancelled /\
     route_after_approval decided = END /\
     resume_ state false w = ((Finished decided, [(Node.check_approval, decided)]), w) /\
     State.result decided = State.result persisted)
    /\
    (approved = true ->
     State.status decided = Some Status.pending /\
     route_after_approval decided = Some Node.execute_payment /\
     exists (final : State.t) (result : PaymentResult),
       resume_ state true w
       = ((Finished final,
           [(Node.check_approval, decided); (Node.execute_payment, final)]),
          advance 1 w) /\
       State.result final = Some result /\
       PaymentResult_status result = Status.paid /\
       State.status final = Some Status.paid).
Proof.
  intros Hrun approved w updates decided.
  apply from_start_suspended in Hrun as [Hnode Hres].
  cbn [entry State.result] in Hres.
  pose proof (fun b => check_approval_resumed state prompt b Hnode) as Hdec.
  split; [apply Hdec|]. split; [reflexivity|]. split.
  - intros ->. split; [reflexivity|]. split; [reflexivity|]. split.
    + unfold resume, from_check_approval. rewrite Hdec. reflexivity.
    + cbn. exact Hres.
  - intros ->. split; [reflexivity|]. split; [reflexivity|].
    eexists. eexists. split.
    + unfold resume, from_check_approval. rewrite Hdec.
      fold updates. fold decided.
      change (route_after_approval decided) with (Some Node.execute_payment).
      cbn iota. unfold from_execute_payment, execute_payment_node.
      cbn. reflexivity.
    + cbn. auto.
Qed.

(** Every invoice the fetch returns is an invoice of the table. *)
Lemma mock_selection_In (vendor_id : option string) (limit : Z) (inv : Invoice.t) :
  In inv (mock_selection vendor_id limit) -> In inv mock_invoice_items.
Proof.
  unfold mock_selection, slice_to. intros Hin.
  assert (Htake : forall (n : nat) (l : list Invoice.t), In inv (take n l) -> In inv l).
  { intros n l. revert n. induction l as [|x l IH]; intros [|n] H; cbn in *; auto.
    - contradiction.
    - destruct H as [->|H]; eauto. }
  destruct (limit <? 0); apply Htake in Hin;
    destruct (str_truthy vendor_id); auto;
    apply filter_In in Hin as [Hin _]; exact Hin.
Qed.

(** [float] is exact on the amounts of the table. *)
Lemma float_of_mock_amount_exact (inv : Invoice.t) :
  In inv mock_invoice_items ->
  exists q : Q,
    float_value (float_of_Decimal (Invoice.amount inv)) = Some q /\
    (q == Invoice.amount inv)%Q.
Proof.
  intros Hin. cbn in Hin.
  destruct Hin as [<-|[<-|[<-|[]]]]; eexists; split;
    try (vm_compute; reflexivity).
Qed.

(** After a decision the run finishes without the status ['failed']. *)
Lemma resume_never_failed (state : State.t) (prompt : Prompt.t)
    (approved : bool) (w : World) :
  check_ state None = Interrupt prompt ->
  never_failed (fst (resume_ state approved w)).
Proof.
  intros Hnode. unfold resume, from_check_approval.
  rewrite (check_approval_resumed state prompt approved Hnode).
  destruct approved; cbn; (split; [repeat constructor|]); cbn; discriminate.
Qed.

(** A fetch that returns on some attempt has a first attempt that returns,
    no later than that one. *)
Lemma fetch_first_success (vendor_id : option string) (w : World) (i : nat)
    (invoices : list Invoice.t) :
  outcome_at run_fetch_invoices (vendor_id, 5) i w = inr invoices ->
  exists k : nat,
    (k <= S i)%nat /\
    first_success run_fetch_invoices (vendor_id, 5) k invoices w.
Proof.
  intros Hi.
  destruct (all_raise_or_first_success run_fetch_invoices (vendor_id, 5) (S i) w)
    as [Hall|(k & r & Hk & Hfs)].
  - destruct (Hall i ltac:(lia)) as [e He]. congruence.
  - exists k. split; [exact Hk|].
    rewrite outcome_at_fetch in Hi.
    destruct (timeout_drawn _); [discriminate|]. injection Hi as <-.
    pose proof (first_success_fetch _ _ _ _ Hfs) as ->. exact Hfs.
Qed.

(** C2, as amended. For a run on any thread in which the fetch returns on an
    attempt within the retry budget, with at least one invoice: the
    [reconcile] node sets [pending_payment] to the invoice id, the vendor id
    and the amount of the invoice of the first reconciled item, the float
    set being the number the decimal amount denotes, and the node sets no
    status.  When the persisted status of the thread is not ['failed']
    (on every new thread), no state of the run, before or after a
    resumption, has the status ['failed'].  When it is ['failed'], the
    status is still ['failed'] after the node, which does not clear it, and
    the run ends there. *)
Theorem reconcile_proposes_first_invoice (persisted : State.t)
    (vendor_id : option string) (w : World)
    (attempt : nat) (first : Invoice.t) (rest : list Invoice.t) :
  Z.of_nat attempt < MAX_TOOL_RETRIES ->
  outcome_at run_fetch_invoices (vendor_id, 5) attempt w = inr (first :: rest) ->
  let entry_state := entry persisted vendor_id in
  let updates := fst (reconcile_node MAX_TOOL_RETRIES entry_state w) in
  (exists (item : ReconciledItem.t) (items : list ReconciledItem.t)
          (pp : PendingPayment.t),
      Updates.reconciled updates = Some (item :: items) /\
      ReconciledItem.invoice item = first /\
      Updates.pending_payment updates = Some pp /\
      PendingPayment.invoice_id pp = Invoice.invoice_id first /\
      PendingPayment.vendor_id pp = Invoice.vendor_id first /\
      PendingPayment.amount pp = float_of_Decimal (Invoice.amount first) /\
      exists q : Q,
        float_value (PendingPayment.amount pp) = Some q /\
        (q == Invoice.amount first)%Q)
  /\ Updates.status updates = None
  /\ (State.status persisted <> Some Status.failed ->
      never_failed (fst (run_thread_ persisted vendor_id w)) /\
      forall (state : State.t) (prompt : Prompt.t),
        fst (fst (run_thread_ persisted vendor_id w)) = Suspended state prompt ->
        forall (approved : bool) (w' : World),
          never_failed (fst (resume_ state approved w')))
  /\ (State.status persisted = Some Status.failed ->
      exists w' : World,
        run_thread_ persisted vendor_id w
        = ((Finished (merge entry_state updates),
            [(Node.reconcile, merge entry_state updates)]), w') /\
        State.status (merge entry_state updates) = Some Status.failed).
Proof.
  intros Hattempt Hreturns entry_state updates.
  destruct (fetch_first_success vendor_id w attempt (first :: rest) Hreturns)
    as (k & Hkle & Hfs).
  assert (Hk : 1 <= Z.of_nat k <= MAX_TOOL_RETRIES).
  { destruct Hfs as (Hk1 & _). lia. }
  pose proof (first_success_fetch _ _ _ _ Hfs) as Hsel.
  assert (Hin : In first mock_invoice_items).
  { apply (mock_selection_In vendor_id 5). rewrite <- Hsel. left. reflexivity. }
  rewrite Hsel in Hfs.
  pose proof (reconcile_node_fetched (entry persisted vendor_id) w k Hk Hfs) as Hnode.
  cbn zeta in Hnode. cbn [State.vendor_id entry] in Hnode.
  rewrite <- Hsel in Hnode.
  pose proof (reconcile_items_lookup (take 3 (first :: rest)) (advance k w) 0 first
                eq_refl) as H0.
  destruct (fst (reconcile_items (take 3 (first :: rest)) (advance k w)))
    as [|item items] eqn:Hitems; [discriminate|].
  cbn in H0. injection H0 as Hitem.
  subst updates entry_state.
  split; [|split; [|split]].
  - rewrite Hnode. cbn [fst Updates.reconciled Updates.pending_payment].
    exists item, items. eexists. split; [reflexivity|]. split.
    { rewrite Hitem. unfold reconcile_one.
      destruct (run_match_invoice _ _ _) as [[e|m] w']; reflexivity. }
    split; [reflexivity|]. cbn. split; [reflexivity|]. split; [reflexivity|].
    split; [reflexivity|]. apply float_of_mock_amount_exact, Hin.
  - rewrite Hnode. reflexivity.
  - intros Hst. split.
    + unfold run_thread, from_start. rewrite Hnode.
      unfold route_after_reconcile, from_check_approval, check_approval_node.
      cbn [fst snd merge Updates.reconciled
        Updates.pending_payment Updates.approval Updates.hitl_prompt Updates.last_error
        Updates.retry_count Updates.used_fallback Updates.status Updates.result
        State.vendor_id State.reconciled State.pending_payment State.approval
        State.hitl_prompt State.last_error State.retry_count State.used_fallback
        State.status State.result entry PendingPayment.amount
        PendingPayment.invoice_id].
      destruct (decide (State.status persisted = Some Status.failed)) as [Habs|_];
        [contradiction|].
      destruct (negb (float_ge _ _)); cbn;
        (split; [repeat constructor|]); unfold status_not_failed; cbn;
        try discriminate; exact Hst.
    + intros state prompt Hrun approved w'.
      apply from_start_suspended in Hrun as [Hcheck _].
      exact (resume_never_failed state prompt approved w' Hcheck).
  - intros Hst. unfold run_thread, from_start. rewrite Hnode.
    unfold route_after_reconcile.
    cbn [fst snd merge Updates.reconciled
      Updates.pending_payment Updates.approval Updates.hitl_prompt Updates.last_error
      Updates.retry_count Updates.used_fallback Updates.status Updates.result
      State.vendor_id State.reconciled State.pending_payment State.approval
      State.hitl_prompt State.last_error State.retry_count State.used_fallback
      State.status State.result entry].
    destruct (decide (State.status persisted = Some Status.failed)) as [_|Habs];
      [|contradiction].
    eexists. split; [reflexivity|exact Hst].
Qed.
End GraphFacts.

(** ** The statements on the defaults of the configuration *)

Lemma all_fetches_time_out :
  all_raise run_fetch_invoices (Some "V001", 5) (Z.to_nat MAX_TOOL_RETRIES_default)
    (world_of [true; true; true]).
Proof.
  intros i Hi. unfold MAX_TOOL_RETRIES_default in Hi.
  destruct i as [|[|[|i]]]; [eexists; vm_compute; reflexivity..|lia].
Qed.

(** Three attempts, three timeouts, on a new thread. *)
Lemma reconcile_failed_iff_fetch_exhausted_witness :
  let state :=
    merge (initial (Some "V001"))
      (fst (reconcile_node MAX_TOOL_RETRIES_default (initial (Some "V001"))
              (world_of [true; true; true]))) in
  State.status state = Some Status.failed /\
  State.reconciled state = Some [] /\
  State.used_fallback state = Some true /\
  run HITL_APPROVAL_THRESHOLD_USD_default MAX_TOOL_RETRIES_default
    sample_format_usd sample_Decimal_text (Some "V001") (world_of [true; true; true])
  = ((Finished state, [(Node.reconcile, state)]), advance 3 (world_of [true; true; true])).
Proof.
  intros state.
  destruct (reconcile_failed_iff_fetch_exhausted HITL_APPROVAL_THRESHOLD_USD_default
              MAX_TOOL_RETRIES_default sample_format_usd sample_Decimal_text
              new_thread (Some "V001") (world_of [true; true; true])) as [Hnew _].
  destruct (Hnew ltac:(discriminate)) as (Hiff & Hthen & _).
  assert (Hfailed : State.status state = Some Status.failed).
  { apply Hiff. split; [|reflexivity]. split.
    - unfold MAX_TOOL_RETRIES_default. lia.
    - exact all_fetches_time_out. }
  destruct (Hthen Hfailed) as (Hrec & Hfb & _ & _ & _ & Hrun).
  split; [exact Hfailed|]. split; [exact Hrec|]. split; [exact Hfb|exact Hrun].
Defined.

(** C1, as stated, fails when no attempt is allowed.  With
    [MAX_TOOL_RETRIES = 0] the fetch is never called: it raised on every one
    of its zero attempts, the empty-list fallback was substituted
    ([used_fallback] is true) and the reconciled list is empty, yet the node
    sets no status, because the wrapper reports no error and the node asks
    for one before it sets ['failed']. *)
Lemma reconcile_zero_attempts_not_failed :
  let state :=
    merge (initial (Some "V001"))
      (fst (reconcile_node 0 (initial (Some "V001")) (world_of []))) in
  (all_raise run_fetch_invoices (Some "V001", 5) (Z.to_nat 0) (world_of []) /\
   State.used_fallback state = Some true /\
   State.reconciled state = Some []) /\
  State.last_error state = None /\
  State.status state = None.
Proof.
  intros state. split; [split|].
  - intros i Hi. cbn in Hi. lia.
  - split; vm_compute; reflexivity.
  - split; vm_compute; reflexivity.
Qed.

(** The whole run with no attempt allowed: it ends after [reconcile] with
    nothing to pay and no status. *)
Example reconcile_without_attempt :
  fst (run HITL_APPROVAL_THRESHOLD_USD_default 0 sample_format_usd sample_Decimal_text
         (Some "V001") (world_of [true; true; true]))
  = (Finished (State.mk (Some "V001") (Some []) None None None None (Some 0) (Some true)
                 None None),
     [(Node.reconcile,
       State.mk (Some "V001") (Some []) None None None None (Some 0) (Some true)
         None None)]).
Proof. vm_compute. reflexivity. Qed.

(** Vendor ['V001'] on a generator whose first draw is a timeout: the second
    attempt returns the two invoices of the vendor. *)
Lemma reconcile_proposes_first_invoice_witness :
  Z.of_nat 1 < MAX_TOOL_RETRIES_default /\
  outcome_at run_fetch_invoices (Some "V001", 5) 1 (world_of [true; false])
  = inr [ Invoice.mk "INV-001" "V001" "Acme Corp" (1000000 # 100)%Q "USD" None []
            "pending";
          Invoice.mk "INV-002" "V001" "Acme Corp" (50000 # 100)%Q "USD" None []
            "pending" ] /\
  Updates.status
    (fst (reconcile_node MAX_TOOL_RETRIES_default (initial (Some "V001"))
            (world_of [true; false]))) = None /\
  never_failed
    (fst (run HITL_APPROVAL_THRESHOLD_USD_default MAX_TOOL_RETRIES_default
            sample_format_usd sample_Decimal_text (Some "V001") (world_of [true; false]))).
Proof.
  assert (Hk : Z.of_nat 1 < MAX_TOOL_RETRIES_default)
    by (unfold MAX_TOOL_RETRIES_default; lia).
  assert (Hfetch :
    outcome_at run_fetch_invoices (Some "V001", 5) 1 (world_of [true; false])
    = inr [ Invoice.mk "INV-001" "V001" "Acme Corp" (1000000 # 100)%Q "USD" None []
              "pending";
            Invoice.mk "INV-002" "V001" "Acme Corp" (50000 # 100)%Q "USD" None []
              "pending" ])
    by (vm_compute; reflexivity).
  split; [exact Hk|]. split; [exact Hfetch|].
  pose proof (reconcile_proposes_first_invoice HITL_APPROVAL_THRESHOLD_USD_default
                MAX_TOOL_RETRIES_default sample_format_usd sample_Decimal_text
                new_thread (Some "V001") (world_of [true; false]) 1 _ _ Hk Hfetch)
    as (_ & Hstatus & Hnew & _).
  split; [exact Hstatus|]. exact (proj1 (Hnew ltac:(discriminate))).
Defined.

(** C2, as stated, fails on a thread that has failed before.  The run of
    vendor ['V001'] with three timeouts ends with the status ['failed'].  A
    second run on that thread, in which the first attempt of the fetch
    returns the two invoices of the vendor, sets the pending payment of the
    first invoice, and its status is still ['failed']: no node clears it,
    and the run ends after [reconcile]. *)
Lemma rerun_of_failed_thread_stays_failed :
  exists failed_thread state : State.t,
    fst (fst (run HITL_APPROVAL_THRESHOLD_USD_default MAX_TOOL_RETRIES_default
                sample_format_usd sample_Decimal_text (Some "V001")
                (world_of [true; true; true])))
    = Finished failed_thread /\
    State.status failed_thread = Some Status.failed /\
    outcome_at run_fetch_invoices (Some "V001", 5) 0 (world_of [])
    = inr [ Invoice.mk "INV-001" "V001" "Acme Corp" (1000000 # 100)%Q "USD" None []
              "pending";
            Invoice.mk "INV-002" "V001" "Acme Corp" (50000 # 100)%Q "USD" None []
              "pending" ] /\
    fst (run_thread HITL_APPROVAL_THRESHOLD_USD_default MAX_TOOL_RETRIES_default
           sample_format_usd sample_Decimal_text failed_thread (Some "V001")
           (world_of []))
    = (Finished state, [(Node.reconcile, state)]) /\
    State.pending_payment state
    = Some (PendingPayment.mk "INV-001" (float_of_Decimal (1000000 # 100)%Q) "V001") /\
    State.used_fallback state = Some false /\
    State.status state = Some Status.failed.
Proof.
  eexists. eexists.
  split; [vm_compute; reflexivity|]. split; [reflexivity|].
  split; [vm_compute; reflexivity|]. split; [vm_compute; reflexivity|].
  split; [vm_compute; reflexivity|]. split; reflexivity.
Qed.

(** The pending payment of that run: the first invoice, with its amount as
    a float. *)
Example reconcile_node_pending_payment :
  Updates.pending_payment
    (fst (reconcile_node MAX_TOOL_RETRIES_default (initial (Some "V001"))
            (world_of [true; false])))
  = Some (PendingPayment.mk "INV-001" (float_of_Decimal (1000000 # 100)%Q) "V001").
Proof. vm_compute. reflexivity. Qed.

(** The default threshold against [10000.00], against the threshold itself,
    against one unit less and against [500.00]. *)
Lemma check_approval_threshold_witness :
  check_approval_node HITL_APPROVAL_THRESHOLD_USD_default sample_format_usd
    sample_Decimal_text (state_with_amount (1000000 # 100)%Q) None
  = Interrupt sample_prompt
  /\
  (exists prompt : Prompt.t,
      check_approval_node HITL_APPROVAL_THRESHOLD_USD_default sample_format_usd
        sample_Decimal_text (state_with_amount (500000 # 100)%Q) None
      = Interrupt prompt)
  /\
  check_approval_node HITL_APPROVAL_THRESHOLD_USD_default sample_format_usd
    sample_Decimal_text (state_with_amount (499900 # 100)%Q) None
  = Return (Updates.mk None None (Some true) (Some None) None None None
              (Some Status.pending) None)
  /\
  check_approval_node HITL_APPROVAL_THRESHOLD_USD_default sample_format_usd
    sample_Decimal_text (state_with_amount (50000 # 100)%Q) None
  = Return (Updates.mk None None (Some true) (Some None) None None None
              (Some Status.pending) None).
Proof.
  split; [|split; [|split]].
  - exact (proj1 (proj1 (check_approval_threshold HITL_APPROVAL_THRESHOLD_USD_default
                           sample_format_usd sample_Decimal_text
                           (state_with_amount (1000000 # 100)%Q) _ eq_refl)
                    eq_refl)).
  - eexists.
    exact (proj1 (proj1 (check_approval_threshold HITL_APPROVAL_THRESHOLD_USD_default
                           sample_format_usd sample_Decimal_text
                           (state_with_amount (500000 # 100)%Q) _ eq_refl)
                    eq_refl)).
  - exact (proj2 (check_approval_threshold HITL_APPROVAL_THRESHOLD_USD_default
                    sample_format_usd sample_Decimal_text
                    (state_with_amount (499900 # 100)%Q) _ eq_refl)
             eq_refl None).
  - exact (proj2 (check_approval_threshold HITL_APPROVAL_THRESHOLD_USD_default
                    sample_format_usd sample_Decimal_text
                    (state_with_amount (50000 # 100)%Q) _ eq_refl)
             eq_refl None).
Defined.

Lemma sample_run_suspends :
  fst (fst (run HITL_APPROVAL_THRESHOLD_USD_default MAX_TOOL_RETRIES_default
              sample_format_usd sample_Decimal_text (Some "V001") (world_of [])))
  = Suspended sample_suspended sample_prompt.
Proof. vm_compute. reflexivity. Qed.

(** The suspended run of vendor ['V001'], rejected and approved. *)
Lemma resume_with_decision_witness :
  fst (fst (run HITL_APPROVAL_THRESHOLD_USD_default MAX_TOOL_RETRIES_default
              sample_format_usd sample_Decimal_text (Some "V001") (world_of [])))
  = Suspended sample_suspended sample_prompt
  /\
  (exists decided : State.t,
      resume HITL_APPROVAL_THRESHOLD_USD_default sample_format_usd sample_Decimal_text
        sample_suspended false (world_of [])
      = ((Finished decided, [(Node.check_approval, decided)]), world_of []) /\
      State.status decided = Some Status.cancelled /\
      State.result decided = None)
  /\
  (exists (decided final : State.t) (result : PaymentResult),
      resume HITL_APPROVAL_THRESHOLD_USD_default sample_format_usd sample_Decimal_text
        sample_suspended true (world_of [])
      = ((Finished final,
          [(Node.check_approval, decided); (Node.execute_payment, final)]),
         advance 1 (world_of [])) /\
      State.result final = Some result /\
      State.status final = Some Status.paid).
Proof.
  split; [exact sample_run_suspends|]. split.
  - destruct (resume_with_decision HITL_APPROVAL_THRESHOLD_USD_default
                MAX_TOOL_RETRIES_default sample_format_usd sample_Decimal_text
                new_thread (Some "V001") (world_of []) sample_suspended sample_prompt
                sample_run_suspends false (world_of []))
      as (_ & _ & Hno & _).
    destruct (Hno eq_refl) as (Hstatus & _ & Hresume & Hresult).
    eexists. split; [exact Hresume|]. split; [exact Hstatus|exact Hresult].
  - destruct (resume_with_decision HITL_APPROVAL_THRESHOLD_USD_default
                MAX_TOOL_RETRIES_default sample_format_usd sample_Decimal_text
                new_thread (Some "V001") (world_of []) sample_suspended sample_prompt
                sample_run_suspends true (world_of []))
      as (_ & _ & _ & Hyes).
    destruct (Hyes eq_refl) as (_ & _ & final & result & Hresume & Hresult & _ & Hstatus).
    eexists. exists final, result. split; [exact Hresume|]. split; assumption.
Defined.

(** C8, as stated, fails on a thread that holds an earlier payment.  The
    run of vendor ['V002'] pays invoice ['INV-003'], below the threshold,
    without a suspension.  A second run on that thread, for vendor ['V001'],
    suspends on invoice ['INV-001'].  Resumed with a rejection it ends with
    the status ['cancelled'] after [check_approval] alone, and [result] is
    not unset: it still holds the payment of ['INV-003']. *)
Lemma resume_rejected_keeps_earlier_result :
  exists (paid_thread suspended decided : State.t) (prompt : Prompt.t)
         (amount reference : string),
    fst (fst (run HITL_APPROVAL_THRESHOLD_USD_default MAX_TOOL_RETRIES_default
                sample_format_usd sample_Decimal_text (Some "V002") (world_of [])))
    = Finished paid_thread /\
    fst (fst (run_thread HITL_APPROVAL_THRESHOLD_USD_default MAX_TOOL_RETRIES_default
                sample_format_usd sample_Decimal_text paid_thread (Some "V001")
                (world_of [])))
    = Suspended suspended prompt /\
    Prompt.invoice_id prompt = "INV-001" /\
    resume HITL_APPROVAL_THRESHOLD_USD_default sample_format_usd sample_Decimal_text
      suspended false (world_of [])
    = ((Finished decided, [(Node.check_approval, decided)]), world_of []) /\
    State.status decided = Some Status.cancelled /\
    State.result decided = Some (PaymentPaid "INV-003" amount "V002" reference).
Proof.
  eexists. eexists. eexists. eexists. eexists. eexists.
  split; [vm_compute; reflexivity|]. split; [vm_compute; reflexivity|].
  split; [reflexivity|]. split; [vm_compute; reflexivity|].
  split; reflexivity.
Qed.

(** The payment the approved run records. *)
Example resume_approved_result :
  match fst (fst (resume HITL_APPROVAL_THRESHOLD_USD_default sample_format_usd
                    sample_Decimal_text sample_suspended true (world_of []))) with
  | Finished final =>
      State.result final
      = Some (PaymentPaid "INV-001" "10000.0" "V001" "PAY-INV-001-1234")
  | _ => False
  end.
Proof. vm_compute. reflexivity. Qed.

(** The scenario of an invoice below the threshold: vendor ['V002'], whose
    only invoice is of [2500.00], is paid without a suspension. *)
Example run_auto_approve :
  match fst (fst (run HITL_APPROVAL_THRESHOLD_USD_default MAX_TOOL_RETRIES_default
                    sample_format_usd sample_Decimal_text (Some "V002") (world_of []))) with
  | Finished final =>
      State.status final = Some Status.paid /\ State.approval final = Some true /\
      State.hitl_prompt final = None
  | _ => False
  end.
Proof. vm_compute. auto. Qed.

(* ===================================================================== *)
(** * Properties of the redaction *)
(* ===================================================================== *)

(** Induction on values, with the hypothesis for every element of a list or
    of a tuple and for every value of a dictionary. *)
Lemma pyval_ind (P : pyval -> Prop) :
  P PNone ->
  (forall b, P (PBool b)) ->
  (forall z, P (PInt z)) ->
  (forall x, P (PFloat x)) ->
  (forall s, P (PStr s)) ->
  (forall items, Forall P items -> P (PList items)) ->
  (forall entries, Forall (fun kv => P (snd kv)) entries -> P (PDict entries)) ->
  (forall items, Forall P items -> P (PTuple items)) ->
  forall v, P v.
Proof.
  intros HNone HBool HInt HFloat HStr HList HDict HTuple.
  refine (fix IH (v : pyval) : P v :=
            match v with
            | PNone => HNone
            | PBool b => HBool b
            | PInt z => HInt z
            | PFloat x => HFloat x
            | PStr s => HStr s
            | PList items =>
                HList items
                  ((fix go (l : list pyval) : Forall P l :=
                      match l with
                      | [] => List.Forall_nil _
                      | x :: l' => List.Forall_cons _ x l' (IH x) (go l')
                      end) items)
            | PDict entries =>
                HDict entries
                  ((fix go (l : list (string * pyval))
                      : Forall (fun kv => P (snd kv)) l :=
                      match l with
                      | [] => List.Forall_nil _
                      | kv :: l' => List.Forall_cons _ kv l' (IH (snd kv)) (go l')
                      end) entries)
            | PTuple items =>
                HTuple items
                  ((fix go (l : list pyval) : Forall P l :=
                      match l with
                      | [] => List.Forall_nil _
                      | x :: l' => List.Forall_cons _ x l' (IH x) (go l')
                      end) items)
            end).
Qed.

(** The entry [redact_pii] writes for an entry of a dictionary. *)
Lemma redact_pii_dict (entries : list (string * pyval)) :
  redact_pii (PDict entries)
  = PDict (map (fun kv =>
                  (fst kv,
                   if bool_decide (fst kv ∈ PII_KEYS)
                   then PStr REDACT_PLACEHOLDER
                   else redact_pii (snd kv)))
               entries).
Proof. reflexivity. Qed.

Lemma elem_of_PII_KEYS (k : string) :
  k ∈ PII_KEYS <->
  k = "vendor_tax_id" \/ k = "bank_account" \/ k = "vendor_email" \/ k = "buyer_email".
Proof. unfold PII_KEYS. rewrite !elem_of_union, !elem_of_singleton. tauto. Qed.

(** Reading a key of a redacted dictionary. *)
Lemma dict_get_redacted (k : string) (entries : list (string * pyval)) :
  dict_get k
    (map (fun kv =>
            (fst kv,
             if bool_decide (fst kv ∈ PII_KEYS)
             then PStr REDACT_PLACEHOLDER
             else redact_pii (snd kv)))
         entries)
  = (fun v => if bool_decide (k ∈ PII_KEYS) then PStr REDACT_PLACEHOLDER
              else redact_pii v) <$> dict_get k entries.
Proof.
  induction entries as [|[k' v] rest IH]; [reflexivity|].
  cbn [map dict_get fst snd].
  destruct (String.eqb_spec k k') as [->|Hne]; [reflexivity|exact IH].
Qed.

Lemma at_path_app (p q : list step) (v : pyval) :
  at_path (p ++ q) v = at_path p v ≫= at_path q.
Proof.
  revert v. induction p as [|s p IH]; intros v; [reflexivity|].
  cbn [app at_path]. destruct (child s v) as [v'|]; [apply IH|reflexivity].
Qed.

(** Below a string there is nothing. *)
Lemma at_path_PStr (p : list step) (s : string) (v : pyval) :
  at_path p (PStr s) = Some v -> p = [].
Proof. destruct p as [|[k|i] p]; [reflexivity|discriminate|discriminate]. Qed.

Lemma json_like_child (s : step) (x v : pyval) :
  json_like x = true -> child s x = Some v -> json_like v = true.
Proof.
  destruct x as [| | | | |items|entries|items]; destruct s as [k|i];
    cbn [child json_like]; try discriminate; intros Hj Hc.
  - rewrite forallb_forall in Hj. apply Hj. eapply nth_error_In. exact Hc.
  - induction entries as [|[k' v'] rest IH]; [discriminate|].
    cbn in Hj, Hc. apply andb_true_iff in Hj as [Hv Hrest].
    destruct (String.eqb k k'); [congruence|auto].
Qed.

(** One step down a redacted JSON-like value: the redacted child, or the
    placeholder when the step is a key of the PII set. *)
Lemma child_redacted (s : step) (x : pyval) :
  json_like x = true ->
  child s (redact_pii x)
  = (fun v => if is_pii_step s then PStr REDACT_PLACEHOLDER else redact_pii v)
      <$> child s x.
Proof.
  destruct x as [| | | | |items|entries|items]; destruct s as [k|i];
    cbn [child json_like redact_pii is_pii_step]; try reflexivity; try discriminate;
    intros _.
  - rewrite nth_error_map. destruct (nth_error items i); reflexivity.
  - apply dict_get_redacted.
Qed.

(** Along a path with no key of the PII set, the value found in the output
    is the redacted value found in the input. *)
Lemma at_path_redacted (p : list step) (x v : pyval) :
  json_like x = true ->
  forallb (fun s => negb (is_pii_step s)) p = true ->
  at_path p x = Some v ->
  at_path p (redact_pii x) = Some (redact_pii v) /\ json_like v = true.
Proof.
  revert x. induction p as [|s p IH]; intros x Hj Hp Hv.
  - cbn in Hv |- *. injection Hv as <-. auto.
  - cbn [forallb] in Hp. apply andb_true_iff in Hp as [Hs Hp].
    cbn [at_path] in Hv |- *. rewrite child_redacted by exact Hj.
    destruct (child s x) as [x'|] eqn:Hc; [|discriminate].
    cbn. apply negb_true_iff in Hs. rewrite Hs.
    apply IH; [exact (json_like_child s x x' Hj Hc)|exact Hp|exact Hv].
Qed.

(** C5. For every JSON-like value: [redact_pii] maps a dictionary entry by
    entry and a list element by element; in its output, at any depth, the
    value under a key of the PII set ([vendor_tax_id], [bank_account],
    [vendor_email], [buyer_email]) is the placeholder ['[REDACTED]'] and
    nothing else; every entry of the input under such a key (not itself
    below another such key) has its value replaced by the placeholder; and
    along every path through other keys and through list indices the output
    holds the redacted value of the input. *)
Theorem redact_pii_replaces_pii_values (x : pyval) :
  json_like x = true ->
  (forall (p : list step) (k : string) (v : pyval),
      k ∈ PII_KEYS ->
      at_path (p ++ [Key k]) (redact_pii x) = Some v ->
      v = PStr "[REDACTED]")
  /\
  (forall (p : list step) (k : string) (v : pyval),
      k ∈ PII_KEYS ->
      forallb (fun s => negb (is_pii_step s)) p = true ->
      at_path (p ++ [Key k]) x = Some v ->
      at_path (p ++ [Key k]) (redact_pii x) = Some (PStr "[REDACTED]"))
  /\
  (forall (p : list step) (v : pyval),
      forallb (fun s => negb (is_pii_step s)) p = true ->
      at_path p x = Some v ->
      at_path p (redact_pii x) = Some (redact_pii v))
  /\
  (forall k : string,
      k ∈ PII_KEYS <->
      k = "vendor_tax_id" \/ k = "bank_account" \/ k = "vendor_email" \/ k = "buyer_email").
Proof.
  intros Hj. split; [|split; [|split]].
  - intros p. revert x Hj. induction p as [|s p IH]; intros x Hj k v Hk Hv.
    + cbn [app at_path] in Hv. rewrite child_redacted in Hv by exact Hj.
      destruct (child (Key k) x) as [x'|]; [|discriminate].
      cbn in Hv. rewrite bool_decide_eq_true_2 in Hv by exact Hk.
      injection Hv as <-. reflexivity.
    + cbn [app at_path] in Hv. rewrite child_redacted in Hv by exact Hj.
      destruct (child s x) as [x'|] eqn:Hc; [|discriminate].
      cbn in Hv. destruct (is_pii_step s).
      * apply at_path_PStr in Hv. destruct p; discriminate.
      * exact (IH x' (json_like_child s x x' Hj Hc) k v Hk Hv).
  - intros p k v Hk Hp Hv. rewrite at_path_app in Hv |- *.
    destruct (at_path p x) as [d|] eqn:Hd; [|discriminate].
    destruct (at_path_redacted p x d Hj Hp Hd) as [-> Hjd].
    change (at_path [Key k] d = Some v) in Hv.
    change (at_path [Key k] (redact_pii d) = Some (PStr "[REDACTED]")).
    cbn [at_path] in Hv |- *. rewrite child_redacted by exact Hjd.
    destruct (child (Key k) d) as [v'|]; [|discriminate].
    cbn. rewrite bool_decide_eq_true_2 by exact Hk. reflexivity.
  - intros p v Hp Hv. exact (proj1 (at_path_redacted p x v Hj Hp Hv)).
  - exact elem_of_PII_KEYS.
Qed.

(** The sample payload: PII two and three levels down, and a name next to
    it. *)
Lemma redact_pii_replaces_pii_values_witness :
  json_like sample_payload = true /\
  at_path [Key "vendor"; Key "bank_account"] (redact_pii sample_payload)
  = Some (PStr "[REDACTED]") /\
  at_path [Key "contacts"; Index 0; Key "buyer_email"] (redact_pii sample_payload)
  = Some (PStr "[REDACTED]") /\
  at_path [Key "vendor"; Key "name"] (redact_pii sample_payload)
  = Some (PStr "Acme Corp").
Proof.
  assert (Hj : json_like sample_payload = true) by reflexivity.
  destruct (redact_pii_replaces_pii_values sample_payload Hj) as (_ & Hpii & Hother & Hkeys).
  split; [exact Hj|]. split; [|split].
  - apply (Hpii [Key "vendor"] "bank_account" (PStr "DE00 1234")); [|reflexivity..].
    apply Hkeys. right. left. reflexivity.
  - apply (Hpii [Key "contacts"; Index 0] "buyer_email" (PStr "ap@example.com"));
      [|reflexivity..].
    apply Hkeys. right. right. right. reflexivity.
  - apply (Hother [Key "vendor"; Key "name"] (PStr "Acme Corp")); reflexivity.
Defined.

(** The whole output on the sample payload. *)
Example redact_pii_sample :
  redact_pii sample_payload
  = PDict [ ("vendor", PDict [ ("name", PStr "Acme Corp");
                               ("bank_account", PStr "[REDACTED]") ]);
            ("contacts", PList [ PDict [ ("buyer_email", PStr "[REDACTED]") ] ]);
            ("amount", PInt 500) ].
Proof. vm_compute. reflexivity. Qed.

Lemma redact_pii_idempotent (x : pyval) : redact_pii (redact_pii x) = redact_pii x.
Proof.
  induction x as [| | | | |items IH|entries IH|items IH] using pyval_ind;
    try reflexivity.
  - cbn [redact_pii]. f_equal. rewrite map_map. apply map_ext_Forall. exact IH.
  - rewrite !redact_pii_dict. f_equal. rewrite map_map. apply map_ext_Forall.
    eapply Forall_impl; [exact IH|]. intros [k v] Hv. cbn [fst snd] in *.
    destruct (bool_decide (k ∈ PII_KEYS)); [reflexivity|]. f_equal. exact Hv.
Qed.

(** Wherever a path that crosses no key of the PII set leads in the input,
    it leads in the output, to the value itself or to its redaction. *)
Lemma at_path_kept (p : list step) (x v : pyval) :
  forallb (fun s => negb (is_pii_step s)) p = true ->
  at_path p x = Some v ->
  exists v', at_path p (redact_pii x) = Some v' /\ (v' = redact_pii v \/ v' = v).
Proof.
  revert x. induction p as [|s p IH]; intros x Hp Hv.
  - cbn in Hv |- *. injection Hv as <-. eauto.
  - cbn [forallb] in Hp. apply andb_true_iff in Hp as [Hs Hp].
    apply negb_true_iff in Hs. cbn [at_path] in Hv |- *.
    destruct (child s x) as [x'|] eqn:Hc; [|discriminate].
    destruct x as [| | | | |items|entries|items]; destruct s as [k|i];
      cbn [child] in Hc; try discriminate.
    + cbn [redact_pii child]. rewrite nth_error_map, Hc. cbn. exact (IH x' Hp Hv).
    + cbn [redact_pii child]. rewrite dict_get_redacted, Hc. cbn.
      cbn [is_pii_step] in Hs. rewrite Hs. exact (IH x' Hp Hv).
    + cbn [redact_pii child]. rewrite Hc. eauto.
Qed.

(** C10. [redact_pii] is idempotent.  It keeps the shape of what it
    processes: a dictionary comes out with the same keys in the same order,
    a list with the same length, and so does the value at every position
    that is not under a key of the PII set; a value that is neither a
    dictionary nor a list comes out unchanged.  A tuple is such a value: it
    is not entered, and a dictionary inside it keeps the value under its
    PII key. *)
Theorem redact_pii_idempotent_and_shape :
  (forall x : pyval, redact_pii (redact_pii x) = redact_pii x)
  /\ (forall x : pyval, keys_of (redact_pii x) = keys_of x)
  /\ (forall x : pyval, len_of (redact_pii x) = len_of x)
  /\ (forall (x : pyval) (p : list step) (v : pyval),
         forallb (fun s => negb (is_pii_step s)) p = true ->
         at_path p x = Some v ->
         exists v',
           at_path p (redact_pii x) = Some v' /\
           keys_of v' = keys_of v /\ len_of v' = len_of v)
  /\ (forall x : pyval,
         (forall entries, x <> PDict entries) -> (forall items, x <> PList items) ->
         redact_pii x = x)
  /\ (forall items : list pyval, redact_pii (PTuple items) = PTuple items)
  /\ at_path [Index 0; Key "bank_account"] (redact_pii sample_tuple)
     = Some (PStr "DE00 1234").
Proof.
  assert (Hkeys : forall x, keys_of (redact_pii x) = keys_of x).
  { intros [| | | | |items|entries|items]; try reflexivity.
    cbn [redact_pii keys_of]. rewrite map_map. reflexivity. }
  assert (Hlen : forall x, len_of (redact_pii x) = len_of x).
  { intros [| | | | |items|entries|items]; try reflexivity.
    cbn [redact_pii len_of]. rewrite length_map. reflexivity. }
  split; [exact redact_pii_idempotent|].
  split; [exact Hkeys|]. split; [exact Hlen|]. split; [|split; [|split]].
  - intros x p v Hp Hv.
    destruct (at_path_kept p x v Hp Hv) as (v' & Hv' & [->| ->]);
      eexists; (split; [exact Hv'|]); auto.
  - intros [| | | | |items|entries|items] Hd Hl; try reflexivity.
    + exfalso. exact (Hl items eq_refl).
    + exfalso. exact (Hd entries eq_refl).
  - reflexivity.
  - reflexivity.
Qed.

(** The sample payload and the sample tuple. *)
Lemma redact_pii_idempotent_and_shape_witness :
  redact_pii (redact_pii sample_payload) = redact_pii sample_payload /\
  (exists v',
      at_path [Key "vendor"] (redact_pii sample_payload) = Some v' /\
      keys_of v' = Some ["name"; "bank_account"]) /\
  redact_pii sample_tuple = sample_tuple.
Proof.
  destruct redact_pii_idempotent_and_shape as (Hidem & _ & _ & Hpos & _ & Htuple & _).
  split; [apply Hidem|]. split.
  - destruct (Hpos sample_payload [Key "vendor"]
                (PDict [ ("name", PStr "Acme Corp"); ("bank_account", PStr "DE00 1234") ])
                eq_refl eq_refl) as (v' & Hv' & Hk & _).
    exists v'. split; [exact Hv'|exact Hk].
  - apply Htuple.
Defined.

(* ===================================================================== *)
(** * Further properties of the retry and fallback wrapper *)
(* ===================================================================== *)

Section RetryBudget.
Context {W E Args A : Type} `{ExceptionClass E}.
Implicit Types (fn : Args -> Call W E A) (args : Args) (w : W).

Lemma all_raise_uncounted fn args (n : nat) w (c : nat) :
  all_raise (counting fn) args n (w, c) -> all_raise fn args n w.
Proof. intros H0 i Hi. rewrite <- (outcome_at_counting fn args i w c). auto. Qed.

Lemma first_success_uncounted fn args (k : nat) (r : A) w (c : nat) :
  first_success (counting fn) args k r (w, c) -> first_success fn args k r w.
Proof.
  intros (Hk & Hall & Hok). split; [exact Hk|]. split.
  - exact (all_raise_uncounted fn args _ w c Hall).
  - rewrite <- (outcome_at_counting fn args _ w c). exact Hok.
Qed.

(** X1. Whatever the operation does on each call (return, raise an instance
    of [Exception], raise an exception of another class), the wrapper
    invokes it at most [max_retries] times and leaves the world those
    invocations made; every invocation but the last raised an instance of
    [Exception].  When the wrapper returns, it reports
    [used_fallback = False] exactly when some attempt within the budget
    returns, and then returns the result of its last invocation with no
    error; otherwise it returns the fallback value after using the whole
    budget, every call having raised an instance of [Exception], with the
    error of the last invocation.  When the wrapper does not return, the
    exception that leaves it is the one its last invocation raised, and is
    not an instance of [Exception]. *)
Theorem run_with_retry_and_fallback_budget fn args (fallback_result : A)
    (max_retries : Z) w :
  let out :=
    run_with_retry_and_fallback (counting fn) args fallback_result max_retries
      (w, 0%nat) in
  let calls := snd (snd out) in
  (calls <= Z.to_nat max_retries)%nat /\
  fst (snd out) = world_after fn args calls w /\
  all_caught fn args (calls - 1) w /\
  match fst out with
  | inr (result, error, used_fallback) =>
      (used_fallback = false <->
       exists i : nat, (i < Z.to_nat max_retries)%nat /\
                       exists r, outcome_at fn args i w = inr r) /\
      (used_fallback = false ->
       error = None /\ (1 <= calls)%nat /\
       outcome_at fn args (calls - 1) w = inr result) /\
      (used_fallback = true ->
       result = fallback_result /\ calls = Z.to_nat max_retries /\
       error = last_raised fn args calls w /\
       all_caught fn args calls w)
  | inl not_caught =>
      (1 <= calls)%nat /\
      exists e : E,
        outcome_at fn args (calls - 1) w = inl e /\
        not_Exception e = Some not_caught
  end.
Proof.
  intros out calls. subst calls out.
  destruct (run_with_retry_and_fallback_outcomes (counting fn) args fallback_result
              max_retries (w, 0%nat))
    as [[Hn ->]|[(Hn & Hall & e & He & ->)|[(k & r & Hk & Hfs & Hc & ->)
       |(j & e & b & Hj & Hc & He & Hb & ->)]]].
  - cbn [fst snd]. replace (Z.to_nat max_retries) with 0%nat by lia.
    split; [lia|]. split; [reflexivity|]. split; [intros i Hi; lia|].
    split; [|split]; [split| |].
    + discriminate.
    + intros (i & Hi & _). lia.
    + discriminate.
    + intros _. split; [reflexivity|]. split; [reflexivity|]. split; [reflexivity|].
      intros i Hi. lia.
  - rewrite world_after_counting. cbn [fst snd].
    apply all_caught_counting in Hall. rewrite outcome_at_counting in He.
    split; [lia|]. split; [reflexivity|].
    split; [apply (all_caught_le fn args _ (Z.to_nat max_retries)); [lia|exact Hall]|].
    split; [|split]; [split| |].
    + discriminate.
    + intros (i & Hi & r & Hr). destruct (Hall i Hi) as (e' & He' & _). congruence.
    + discriminate.
    + intros _. split; [reflexivity|]. split; [lia|].
      replace (0 + Z.to_nat max_retries)%nat with (S (Z.to_nat max_retries - 1)) by lia.
      cbn [last_raised]. rewrite He. split; [reflexivity|].
      replace (S (Z.to_nat max_retries - 1)) with (Z.to_nat max_retries) by lia.
      exact Hall.
  - rewrite world_after_counting. cbn [fst snd].
    apply first_success_uncounted in Hfs. destruct Hfs as (Hk1 & _ & Hok).
    apply all_caught_counting in Hc.
    split; [lia|]. split; [reflexivity|]. split; [exact Hc|].
    split; [|split]; [split| |].
    + intros _. exists (k - 1)%nat. split; [lia|]. eauto.
    + reflexivity.
    + intros _. split; [reflexivity|]. split; [lia|]. exact Hok.
    + discriminate.
  - rewrite world_after_counting. cbn [fst snd].
    apply all_caught_counting in Hc. rewrite outcome_at_counting in He.
    replace (0 + S j - 1)%nat with j by lia.
    split; [lia|]. split; [reflexivity|]. split; [exact Hc|].
    split; [lia|]. exists e. auto.
Qed.

(** X2. A larger retry budget never changes a success: when the wrapper
    returns without the fallback on a budget, it returns the same result,
    in the same world, on every larger budget. *)
Theorem run_with_retry_and_fallback_monotone fn args (fallback_result : A)
    (max_retries more_retries : Z) w (r : A) (e : option E) (w1 : W) :
  max_retries <= more_retries ->
  run_with_retry_and_fallback fn args fallback_result max_retries w
  = (inr (r, e, false), w1) ->
  run_with_retry_and_fallback fn args fallback_result more_retries w
  = (inr (r, None, false), w1).
Proof.
  intros Hle Hrun.
  destruct (run_with_retry_and_fallback_outcomes fn args fallback_result max_retries w)
    as [[Hn H0]|[(Hn & Hall & e' & He & H0)|[(k & r' & Hk & Hfs & Hc & H0)
       |(j & e' & b & Hj & Hc & He & Hb & H0)]]];
    rewrite H0 in Hrun; try discriminate.
  injection Hrun as <- _ <-.
  unfold run_with_retry_and_fallback, range.
  apply retry_loop_first_success; [lia|lia|exact Hfs|exact Hc].
Qed.
End RetryBudget.

(** [flaky] returns on its third call: with a budget of three and with a
    budget of ten alike. *)
Lemma run_with_retry_and_fallback_monotone_witness :
  3 <= 10 /\
  run_with_retry_and_fallback flaky tt 0 3 0%nat = (inr (7, None, false), 3%nat) /\
  run_with_retry_and_fallback flaky tt 0 10 0%nat = (inr (7, None, false), 3%nat).
Proof.
  split; [lia|]. split; [reflexivity|].
  apply (run_with_retry_and_fallback_monotone flaky tt 0 3 10 0%nat 7 None 3%nat);
    [lia|reflexivity].
Defined.

(* ===================================================================== *)
(** * Further properties of the tool layer *)
(* ===================================================================== *)

Lemma filter_sublist {X : Type} (f : X -> bool) (l : list X) :
  sublist (List.filter f l) l.
Proof.
  induction l as [|x l IH]; cbn; [constructor|].
  destruct (f x); [apply sublist_skip|apply sublist_cons]; exact IH.
Qed.

Lemma slice_to_sublist {X : Type} (limit : Z) (l : list X) :
  sublist (slice_to limit l) l.
Proof. unfold slice_to. destruct (limit <? 0); apply sublist_take. Qed.

Lemma mock_selection_sublist (vendor_id : option string) (limit : Z) :
  sublist (mock_selection vendor_id limit) mock_invoice_items.
Proof.
  unfold mock_selection. etransitivity; [apply slice_to_sublist|].
  destruct (str_truthy vendor_id); [apply filter_sublist|reflexivity].
Qed.

Lemma In_take {X : Type} (x : X) (n : nat) (l : list X) :
  In x (take n l) -> In x l.
Proof.
  revert n. induction l as [|y l IH]; intros [|n] H; cbn in *; auto.
  - contradiction.
  - destruct H as [->|H]; eauto.
Qed.

Lemma In_slice_to {X : Type} (x : X) (limit : Z) (l : list X) :
  In x (slice_to limit l) -> In x l.
Proof. unfold slice_to. destruct (limit <? 0); apply In_take. Qed.

(** Under a vendor filter every selected invoice is of that vendor. *)
Lemma mock_selection_vendor (v : string) (limit : Z) :
  v <> "" ->
  Forall (fun i => Invoice.vendor_id i = v) (mock_selection (Some v) limit).
Proof.
  intros Hv. apply Forall_forall. intros inv Hin.
  apply list_elem_of_In in Hin.
  unfold mock_selection in Hin. cbn [str_truthy default] in Hin.
  destruct (String.eqb_spec v "") as [->|_]; [contradiction|]. cbn [negb] in Hin.
  apply In_slice_to, filter_In in Hin as [_ Heq].
  apply String.eqb_eq in Heq. exact Heq.
Qed.

(** X3. When [fetch_pending_invoices] returns, it has consumed one draw and
    its result is a sublist of the table, in table order, of at most [limit]
    invoices.  Under a non-empty vendor filter every invoice returned is of
    that vendor, and with a limit of three or more every invoice of that
    vendor in the table is returned.  With no filter, or the empty string,
    the result is the slice [items[:limit]] of the whole table. *)
Theorem fetch_pending_invoices_selection (args : FetchInvoicesInput.t)
    (w w' : World) (invoices : list Invoice.t) :
  fetch_pending_invoices args w = (inr invoices, w') ->
  let limit := FetchInvoicesInput.limit args in
  w' = advance 1 w /\
  sublist invoices mock_invoice_items /\
  (0 <= limit -> Z.of_nat (length invoices) <= limit) /\
  (forall v : string,
      FetchInvoicesInput.vendor_id args = Some v -> v <> "" ->
      Forall (fun i => Invoice.vendor_id i = v) invoices /\
      (3 <= limit ->
       forall inv, In inv mock_invoice_items -> Invoice.vendor_id inv = v ->
                   In inv invoices)) /\
  (FetchInvoicesInput.vendor_id args = None \/
   FetchInvoicesInput.vendor_id args = Some "" ->
   invoices = slice_to limit mock_invoice_items).
Proof.
  destruct args as [vendor limit]. cbn [FetchInvoicesInput.limit FetchInvoicesInput.vendor_id].
  intros Hcall. cbn zeta.
  unfold fetch_pending_invoices, bind in Hcall.
  cbn [FetchInvoicesInput.limit FetchInvoicesInput.vendor_id] in Hcall.
  rewrite _mock_invoices_call in Hcall.
  destruct (timeout_drawn (draws w (cursor w))); [discriminate|].
  unfold ret in Hcall. injection Hcall as <- <-.
  split; [reflexivity|]. split; [apply mock_selection_sublist|].
  split; [|split].
  - intros Hl. unfold mock_selection, slice_to.
    destruct (Z.ltb_spec limit 0) as [Hneg|_]; [lia|].
    rewrite length_take. lia.
  - intros v Hv Hne. rewrite Hv. split; [apply mock_selection_vendor, Hne|].
    intros Hl inv Hin Hvendor. unfold mock_selection, slice_to.
    destruct (Z.ltb_spec limit 0) as [Hneg|_]; [lia|].
    cbn [str_truthy default]. unfold id.
    destruct (String.eqb_spec v "") as [->|_]; [contradiction|]. cbn [negb].
    rewrite take_ge.
    + apply filter_In. split; [exact Hin|]. apply String.eqb_eq. exact Hvendor.
    + pose proof (filter_length_le
                    (fun i => String.eqb (Invoice.vendor_id i) v) mock_invoice_items) as Hf.
      change (length mock_invoice_items) with 3%nat in Hf. lia.
  - intros [Hv|Hv]; rewrite Hv; reflexivity.
Qed.

(** The invoices of vendor ['V001'], asked with the limit of the graph. *)
Lemma fetch_pending_invoices_selection_witness :
  fetch_pending_invoices (FetchInvoicesInput.mk (Some "V001") 5) (world_of [])
  = (inr (mock_selection (Some "V001") 5), advance 1 (world_of [])) /\
  Forall (fun i => Invoice.vendor_id i = "V001") (mock_selection (Some "V001") 5) /\
  length (mock_selection (Some "V001") 5) = 2%nat.
Proof.
  assert (Hcall :
    fetch_pending_invoices (FetchInvoicesInput.mk (Some "V001") 5) (world_of [])
    = (inr (mock_selection (Some "V001") 5), advance 1 (world_of [])))
    by (vm_compute; reflexivity).
  split; [exact Hcall|]. split; [|reflexivity].
  destruct (fetch_pending_invoices_selection _ _ _ _ Hcall) as (_ & _ & _ & Hv & _).
  apply (Hv "V001" eq_refl). discriminate.
Defined.

(** X4. Every result [match_invoice_to_po] returns has a score of [0.0],
    [0.5] or [1.0], so the bounds the result model checks always hold; the
    score is at least [0.5] exactly when both records are found, the message
    is then ['Match found'] and otherwise ['Invoice or PO not found'], and
    the message ['No match'] is never produced; [amount_match] is only ever
    true for a found pair. *)
Theorem match_invoice_to_po_result_range (args : MatchInvoiceInput.t)
    (w w' : World) (r : ReconciliationResult.t) :
  match_invoice_to_po args w = (inr r, w') ->
  let found :=
    is_Some (find_invoice (MatchInvoiceInput.invoice_id args) mock_invoice_items) /\
    is_Some (find_po (MatchInvoiceInput.po_id args) _mock_pos) in
  let score := ReconciliationResult.match_score r in
  (score = float_lit (0 # 1)%Q \/ score = float_lit (1 # 2)%Q \/
   score = float_lit (1 # 1)%Q) /\
  float_ge score (float_lit (0 # 1)%Q) = true /\
  float_ge (float_lit (1 # 1)%Q) score = true /\
  (float_ge score (float_lit (1 # 2)%Q) = true <-> found) /\
  (ReconciliationResult.message r = "Match found" <-> found) /\
  (ReconciliationResult.message r = "Invoice or PO not found" <-> ~ found) /\
  ReconciliationResult.message r <> "No match" /\
  (ReconciliationResult.amount_match r = true -> found).
Proof.
  intros Hcall found score. subst found score.
  unfold match_invoice_to_po, bind in Hcall. rewrite _mock_invoices_call in Hcall.
  destruct (timeout_drawn (draws w (cursor w))); [discriminate|].
  change (mock_selection None 100) with mock_invoice_items in Hcall.
  cbn beta iota zeta in Hcall.
  destruct (find_invoice (MatchInvoiceInput.invoice_id args) mock_invoice_items)
    as [inv|];
    [destruct (find_po (MatchInvoiceInput.po_id args) _mock_pos) as [po|]|];
    unfold ret in Hcall; injection Hcall as <- <-;
    cbn [ReconciliationResult.match_score ReconciliationResult.message
         ReconciliationResult.amount_match].
  - assert (Hfound : is_Some (Some inv) /\ is_Some (Some po)) by (split; eauto).
    destruct (String.eqb (Invoice.vendor_id inv) (PurchaseOrder.vendor_id po)
              && Decimal_lt _ _);
      (split; [auto|]); (split; [reflexivity|]); (split; [reflexivity|]);
      (split; [split; [intros _; exact Hfound|reflexivity]|]);
      (split; [split; [intros _; exact Hfound|reflexivity]|]);
      (split; [split; [discriminate|intros H; contradiction]|]);
      (split; [discriminate|intros _; exact Hfound]).
  - assert (Hnot : ~ (is_Some (Some inv) /\ is_Some (@None PurchaseOrder.t))).
    { intros [_ [x Hx]]. discriminate. }
    split; [auto|]. split; [reflexivity|]. split; [reflexivity|].
    split; [split; [discriminate|intros H; contradiction]|].
    split; [split; [discriminate|intros H; contradiction]|].
    split; [split; [intros _; exact Hnot|reflexivity]|].
    split; [discriminate|discriminate].
  - assert (Hnot : ~ (is_Some (@None Invoice.t) /\
                      is_Some (find_po (MatchInvoiceInput.po_id args) _mock_pos))).
    { intros [[x Hx] _]. discriminate. }
    split; [auto|]. split; [reflexivity|]. split; [reflexivity|].
    split; [split; [discriminate|intros H; contradiction]|].
    split; [split; [discriminate|intros H; contradiction]|].
    split; [split; [intros _; exact Hnot|reflexivity]|].
    split; [discriminate|discriminate].
Qed.

(** Invoice ['INV-002'] against the purchase order the worker picks for its
    vendor: found, and scored [0.5]. *)
Lemma match_invoice_to_po_result_range_witness :
  match_invoice_to_po (MatchInvoiceInput.mk "INV-002" "PO-101") (world_of [])
  = (inr (ReconciliationResult.mk "INV-002" "PO-101" (float_lit (1 # 2)%Q) false
            "Match found"),
     advance 1 (world_of [])) /\
  float_ge (float_lit (1 # 2)%Q) (float_lit (1 # 2)%Q) = true /\
  is_Some (find_invoice "INV-002" mock_invoice_items) /\
  is_Some (find_po "PO-101" _mock_pos).
Proof.
  assert (Hcall :
    match_invoice_to_po (MatchInvoiceInput.mk "INV-002" "PO-101") (world_of [])
    = (inr (ReconciliationResult.mk "INV-002" "PO-101" (float_lit (1 # 2)%Q) false
              "Match found"),
       advance 1 (world_of [])))
    by (vm_compute; reflexivity).
  split; [exact Hcall|]. split; [reflexivity|].
  destruct (match_invoice_to_po_result_range _ _ _ _ Hcall)
    as (_ & _ & _ & Hfound & _).
  apply Hfound. reflexivity.
Defined.

(* ===================================================================== *)
(** * Further properties of the reconciliation step *)
(* ===================================================================== *)

(** What one call of the matcher can give: the simulated timeout, or a
    result for the identifiers it was given. *)
Lemma match_invoice_to_po_outcome (args : MatchInvoiceInput.t) (w : World) :
  match fst (match_invoice_to_po args w) with
  | inl e => e = erp_timeout
  | inr r =>
      ReconciliationResult.invoice_id r = MatchInvoiceInput.invoice_id args /\
      ReconciliationResult.po_id r = MatchInvoiceInput.po_id args
  end.
Proof.
  unfold match_invoice_to_po, bind. rewrite _mock_invoices_call.
  destruct (timeout_drawn (draws w (cursor w))); [reflexivity|].
  cbn beta iota zeta.
  destruct (find_invoice _ _) as [inv|]; [destruct (find_po _ _) as [po|]|];
    cbn; auto.
Qed.

(** An item carries its invoice and either the match for that invoice and
    the purchase order of the lookup, or the message of the timeout. *)
Lemma reconcile_one_shape (inv : Invoice.t) (w : World) :
  let item := fst (reconcile_one inv w) in
  ReconciledItem.invoice item = inv /\
  ((exists m : ReconciliationResult.t,
       ReconciledItem.match_ item = Some m /\
       ReconciledItem.error item = None /\
       ReconciliationResult.invoice_id m = Invoice.invoice_id inv /\
       ReconciliationResult.po_id m = po_id_for (Invoice.vendor_id inv))
   \/ (ReconciledItem.match_ item = None /\
       ReconciledItem.error item = Some "ERP API timeout")).
Proof.
  unfold reconcile_one, run_match_invoice.
  pose proof (match_invoice_to_po_outcome
                (MatchInvoiceInput.mk (Invoice.invoice_id inv)
                   (po_id_for (Invoice.vendor_id inv))) w) as H.
  destruct (match_invoice_to_po _ w) as [[e|m] w']; cbn in H |- *.
  - subst e. auto.
  - destruct H as [H1 H2]. split; [reflexivity|]. left. exists m. auto.
Qed.

Lemma reconcile_items_Forall (P : ReconciledItem.t -> Prop)
    (invoices : list Invoice.t) (w : World) :
  (forall inv w', In inv invoices -> P (fst (reconcile_one inv w'))) ->
  Forall P (fst (reconcile_items invoices w)).
Proof.
  revert w. induction invoices as [|inv rest IH]; intros w HP.
  - constructor.
  - rewrite reconcile_items_cons. cbn [fst]. constructor.
    + apply HP. left. reflexivity.
    + apply IH. intros inv' w' Hin. apply HP. right. exact Hin.
Qed.

Lemma reconcile_items_invoices (invoices : list Invoice.t) (w : World) :
  map ReconciledItem.invoice (fst (reconcile_items invoices w)) = invoices.
Proof.
  revert w. induction invoices as [|inv rest IH]; intros w; [reflexivity|].
  rewrite reconcile_items_cons. cbn [fst map]. rewrite IH. f_equal.
  apply (reconcile_one_shape inv w).
Qed.

(** What the wrapper hands to the step: an error with the fallback, the
    fallback with no error, or the selection of the table. *)
Lemma fetched_cases (MAX_TOOL_RETRIES : Z) (vendor_id : option string) (limit : Z)
    (w : World) :
  let out :=
    run_with_retry_and_fallback run_fetch_invoices (vendor_id, limit) []
      MAX_TOOL_RETRIES w in
  (exists e, fst out = inr ([], Some e, true)) \/
  fst out = inr ([], None, true) \/
  fst out = inr (mock_selection vendor_id limit, None, false).
Proof.
  intros out. subst out.
  destruct (run_with_retry_and_fallback_cases run_fetch_invoices (vendor_id, limit) []
              MAX_TOOL_RETRIES w)
    as [[_ ->]|[(_ & _ & e & _ & ->)|(k & r & _ & (_ & _ & Hok) & ->)]]; cbn [fst]; eauto.
  right. right. unfold outcome_at in Hok.
  destruct (run_fetch_invoices (vendor_id, limit)
              (world_after run_fetch_invoices (vendor_id, limit) (k - 1) w))
    as [o w'] eqn:Hcall.
  cbn in Hok. subst o. apply run_fetch_invoices_returns in Hcall as ->. reflexivity.
Qed.

(** X5. Whatever the vendor filter, the limit, the retry budget and the
    generator: [reconcile_step] returns an error only with an empty list and
    [used_fallback = True], and [used_fallback = False] only with no error.
    The list has at most three items, whose invoices are invoices of the
    table in table order, all of the vendor asked for when a vendor is
    asked for.  Every item has either a match and no error, the match being
    for its own invoice and the purchase order of the lookup, or no match
    and the message of the timeout. *)
Theorem reconcile_step_invariants (MAX_TOOL_RETRIES : Z)
    (vendor_id : option string) (limit : Z) (w : World) :
  let out := reconcile_step MAX_TOOL_RETRIES vendor_id limit w in
  let reconciled := fst (fst (fst out)) in
  let err := snd (fst (fst out)) in
  let used_fallback := snd (fst out) in
  (is_Some err -> reconciled = [] /\ used_fallback = true) /\
  (used_fallback = false -> err = None) /\
  (length reconciled <= 3)%nat /\
  sublist (map ReconciledItem.invoice reconciled) mock_invoice_items /\
  (forall v : string,
      vendor_id = Some v -> v <> "" ->
      Forall (fun item => Invoice.vendor_id (ReconciledItem.invoice item) = v)
             reconciled) /\
  Forall (fun item =>
            (exists m : ReconciliationResult.t,
                ReconciledItem.match_ item = Some m /\
                ReconciledItem.error item = None /\
                ReconciliationResult.invoice_id m
                = Invoice.invoice_id (ReconciledItem.invoice item) /\
                ReconciliationResult.po_id m
                = po_id_for (Invoice.vendor_id (ReconciledItem.invoice item)))
            \/ (ReconciledItem.match_ item = None /\
                ReconciledItem.error item = Some "ERP API timeout"))
         reconciled.
Proof.
  intros out reconciled err used_fallback.
  subst reconciled err used_fallback out. unfold reconcile_step.
  pose proof (fetched_cases MAX_TOOL_RETRIES vendor_id limit w) as Hcases.
  cbn zeta in Hcases.
  destruct (run_with_retry_and_fallback run_fetch_invoices (vendor_id, limit) []
              MAX_TOOL_RETRIES w) as [[[]|[[invoices err] uf]] w1].
  cbn [fst] in Hcases.
  destruct Hcases as [[e He]|[He|He]]; injection He as -> -> ->.
  - cbn. split; [auto|]. split; [discriminate|]. split; [lia|].
    split; [apply sublist_nil_l|]. split; [constructor|constructor].
  - cbn. split; [intros [x Hx]; discriminate|]. split; [discriminate|].
    split; [lia|]. split; [apply sublist_nil_l|]. split; [constructor|constructor].
  - destruct (reconcile_items (take 3 (mock_selection vendor_id limit)) w1)
      as [reconciled w2] eqn:Hitems.
    assert (Hrec : reconciled
                   = fst (reconcile_items (take 3 (mock_selection vendor_id limit)) w1))
      by (rewrite Hitems; reflexivity).
    cbn [fst snd].
    split; [intros [x Hx]; discriminate|]. split; [reflexivity|].
    split; [|split; [|split]].
    + rewrite Hrec, reconcile_items_length, length_take. lia.
    + rewrite Hrec, reconcile_items_invoices.
      etransitivity; [apply sublist_take|apply mock_selection_sublist].
    + intros v -> Hv. rewrite Hrec. apply reconcile_items_Forall.
      intros inv w' Hin. rewrite (proj1 (reconcile_one_shape inv w')).
      apply In_take in Hin.
      pose proof (mock_selection_vendor v limit Hv) as Hall.
      rewrite Forall_forall in Hall. apply Hall, list_elem_of_In, Hin.
    + rewrite Hrec. apply reconcile_items_Forall.
      intros inv w' _. destruct (reconcile_one_shape inv w') as [-> Hshape].
      exact Hshape.
Qed.

Lemma run_fetch_invoices_invalid (vendor_id : option string) (limit : Z) (w : World) :
  ~ (1 <= limit <= 100) ->
  run_fetch_invoices (vendor_id, limit) w = (inl (ValidationError "limit"), w).
Proof.
  intros Hl. unfold run_fetch_invoices, new_FetchInvoicesInput, bind. cbn [fst snd].
  replace ((1 <=? limit) && (limit <=? 100)) with false; [reflexivity|].
  symmetry. apply andb_false_iff.
  destruct (Z.leb_spec 1 limit); [|auto]. destruct (Z.leb_spec limit 100); [lia|auto].
Qed.

(** X6. With a limit outside [1..100] the input model rejects every attempt
    before any call to the ERP: [reconcile_step] returns the empty list with
    [used_fallback = True] and leaves the generator untouched; the error is
    the validation error when at least one attempt is allowed. *)
Theorem reconcile_step_invalid_limit (MAX_TOOL_RETRIES : Z)
    (vendor_id : option string) (limit : Z) (w : World) :
  ~ (1 <= limit <= 100) ->
  exists err : option exn,
    reconcile_step MAX_TOOL_RETRIES vendor_id limit w = (([], err, true), w) /\
    (1 <= MAX_TOOL_RETRIES -> exists msg, err = Some (ValidationError msg)) /\
    (MAX_TOOL_RETRIES <= 0 -> err = None).
Proof.
  intros Hl.
  assert (Hworld : forall i, world_after run_fetch_invoices (vendor_id, limit) i w = w).
  { induction i as [|i IH]; [reflexivity|].
    cbn [world_after]. rewrite run_fetch_invoices_invalid by exact Hl. exact IH. }
  assert (Hout : forall i, outcome_at run_fetch_invoices (vendor_id, limit) i w
                           = inl (ValidationError "limit")).
  { intros i. unfold outcome_at. rewrite Hworld, run_fetch_invoices_invalid by exact Hl.
    reflexivity. }
  unfold reconcile_step.
  destruct (run_with_retry_and_fallback_cases run_fetch_invoices (vendor_id, limit) []
              MAX_TOOL_RETRIES w)
    as [[Hn ->]|[(Hn & _ & e & He & ->)|(k & r & _ & (_ & _ & Hok) & _)]].
  - exists None. cbn. split; [reflexivity|]. split; [lia|auto].
  - rewrite Hout in He. injection He as <-. rewrite Hworld.
    exists (Some (ValidationError "limit")). split; [reflexivity|].
    split; [eauto|lia].
  - rewrite Hout in Hok. discriminate.
Qed.

(** A limit of [0] with the default budget. *)
Lemma reconcile_step_invalid_limit_witness :
  ~ (1 <= 0 <= 100) /\
  exists err : option exn,
    reconcile_step MAX_TOOL_RETRIES_default None 0 (world_of [])
    = (([], err, true), world_of []) /\
    exists msg, err = Some (ValidationError msg).
Proof.
  assert (Hl : ~ (1 <= 0 <= 100)) by lia.
  split; [exact Hl|].
  destruct (reconcile_step_invalid_limit MAX_TOOL_RETRIES_default None 0 (world_of []) Hl)
    as (err & Hstep & Hsome & _).
  exists err. split; [exact Hstep|]. apply Hsome. unfold MAX_TOOL_RETRIES_default. lia.
Defined.

(* ===================================================================== *)
(** * Further properties of the workflow *)
(* ===================================================================== *)

Section WorkflowFacts.
Variable HITL_APPROVAL_THRESHOLD_USD : float.
Variable MAX_TOOL_RETRIES : Z.
Variable format_usd : float -> string.
Variable Decimal_text : float -> string.

Abbreviation run' := (run HITL_APPROVAL_THRESHOLD_USD MAX_TOOL_RETRIES format_usd Decimal_text).
Abbreviation resume' := (resume HITL_APPROVAL_THRESHOLD_USD format_usd Decimal_text).
Abbreviation check' :=
  (check_approval_node HITL_APPROVAL_THRESHOLD_USD format_usd Decimal_text).
Abbreviation pay' := (execute_payment_node Decimal_text).

(** The three ways the node [reconcile] ends, for any entry state. *)
Lemma reconcile_node_cases (state : State.t) (w : World) :
  let before := default 0 (State.retry_count state) in
  let exhausted :=
    1 <= MAX_TOOL_RETRIES /\
    all_raise run_fetch_invoices (State.vendor_id state, 5) (Z.to_nat MAX_TOOL_RETRIES) w in
  (MAX_TOOL_RETRIES <= 0 /\ ~ exhausted /\
   reconcile_node MAX_TOOL_RETRIES state w
   = (Updates.mk (Some []) None None None (Some None) (Some (before + 0)) (Some true)
        None None, w))
  \/ (exhausted /\
      reconcile_node MAX_TOOL_RETRIES state w
      = (Updates.mk (Some []) None None None (Some (Some "ERP API timeout"))
           (Some (before + 1)) (Some true) (Some Status.failed) None,
         advance (Z.to_nat MAX_TOOL_RETRIES) w))
  \/ (exists k : nat,
        1 <= Z.of_nat k <= MAX_TOOL_RETRIES /\ ~ exhausted /\
        let selection := mock_selection (State.vendor_id state) 5 in
        let reconciled := fst (reconcile_items (take 3 selection) (advance k w)) in
        length reconciled = length (take 3 selection) /\
        reconcile_node MAX_TOOL_RETRIES state w
        = (Updates.mk (Some reconciled)
             (match selection with
              | first :: _ =>
                  Some (PendingPayment.mk (Invoice.invoice_id first)
                          (float_of_Decimal (Invoice.amount first))
                          (Invoice.vendor_id first))
              | [] => None
              end)
             None None (Some None) (Some (before + 0)) (Some false) None None,
           advance (k + length reconciled) w)).
Proof.
  intros before exhausted.
  destruct (reconcile_step_cases MAX_TOOL_RETRIES (State.vendor_id state) w)
    as [[Hn _]|[(Hn & Hall & _)|(k & Hk & Hfs & _)]].
  - left. split; [exact Hn|]. split; [intros [H _]; lia|].
    apply reconcile_node_no_attempt, Hn.
  - right. left. split; [split; assumption|].
    apply reconcile_node_exhausted; assumption.
  - right. right. exists k. split; [exact Hk|]. split.
    + intros [_ Hall].
      apply (first_success_not_all_raise _ _ k (Z.to_nat MAX_TOOL_RETRIES) _ _
               ltac:(lia) Hfs Hall).
    + split; [apply reconcile_items_length|].
      apply (reconcile_node_fetched MAX_TOOL_RETRIES state w k Hk Hfs).
Qed.

(** X7. For any entry state: the node [reconcile] sets neither [approval]
    nor [hitl_prompt] nor [result].  When at least one attempt is allowed
    and every attempt of the fetch raises, it sets the status ['failed'],
    [last_error] to the message of the timeout, an empty [reconciled] and
    no pending payment, and [retry_count] goes up by one, whatever the
    number of attempts made.  Otherwise it sets no status, clears
    [last_error], though attempts may have raised before one returned, and
    leaves [retry_count] at its value; [used_fallback] is then true
    exactly when no attempt is allowed, and a pending payment is set
    exactly when [reconciled] is not empty. *)
Theorem reconcile_node_bookkeeping (state : State.t) (w : World) :
  let u := fst (reconcile_node MAX_TOOL_RETRIES state w) in
  let before := default 0 (State.retry_count state) in
  let exhausted :=
    1 <= MAX_TOOL_RETRIES /\
    all_raise run_fetch_invoices (State.vendor_id state, 5) (Z.to_nat MAX_TOOL_RETRIES) w in
  (Updates.approval u = None /\ Updates.hitl_prompt u = None /\ Updates.result u = None)
  /\
  (exhausted ->
   Updates.status u = Some Status.failed /\
   Updates.last_error u = Some (Some "ERP API timeout") /\
   Updates.retry_count u = Some (before + 1) /\
   Updates.used_fallback u = Some true /\
   Updates.reconciled u = Some [] /\
   Updates.pending_payment u = None)
  /\
  (~ exhausted ->
   Updates.status u = None /\
   Updates.last_error u = Some None /\
   Updates.retry_count u = Some before /\
   (Updates.used_fallback u = Some true <-> MAX_TOOL_RETRIES <= 0) /\
   (Updates.pending_payment u = None <-> Updates.reconciled u = Some [])).
Proof.
  clear HITL_APPROVAL_THRESHOLD_USD format_usd Decimal_text.
  intros u before exhausted. subst u.
  destruct (reconcile_node_cases state w)
    as [(Hn & Hnot & ->)|[(Hex & ->)|(k & Hk & Hnot & Hlen & ->)]]; cbn [fst].
  - split; [auto|]. split; [intros Hex; contradiction|]. intros _. cbn.
    fold before. rewrite Z.add_0_r. tauto.
  - split; [auto|]. split; [intros _; cbn; auto 10|]. intros Hnot; contradiction.
  - split; [auto|]. split; [intros Hex; contradiction|]. intros _.
    cbn [Updates.status Updates.last_error Updates.retry_count Updates.used_fallback
         Updates.pending_payment Updates.reconciled].
    fold before. rewrite Z.add_0_r.
    split; [reflexivity|]. split; [reflexivity|]. split; [reflexivity|]. split.
    + split; [discriminate|lia].
    + destruct (mock_selection (State.vendor_id state) 5) as [|first rest].
      * destruct (fst (reconcile_items _ _)); [tauto|discriminate].
      * destruct (fst (reconcile_items _ _)); [discriminate|].
        split; intros H; discriminate.
Qed.

(** What the payment tool records for the pending payment of a state. *)
Lemma execute_payment_node_approved (state : State.t) (w : World) :
  State.approval state = Some true ->
  let pending := State.pending_payment state in
  let invoice_id :=
    match pending with Some p => PendingPayment.invoice_id p | None => "" end in
  pay' state w
  = (inr (Updates.mk None None None None None None None (Some Status.paid)
            (Some (PaymentPaid invoice_id
                     (match pending with
                      | Some p => Decimal_text (PendingPayment.amount p)
                      | None => "0"
                      end)
                     (match pending with
                      | Some p => PendingPayment.vendor_id p
                      | None => ""
                      end)
                     ("PAY-" +:+ invoice_id +:+ "-"
                      +:+ str_int (1000 + ints w (cursor w) mod 9000))))),
     advance 1 w).
Proof.
  clear HITL_APPROVAL_THRESHOLD_USD MAX_TOOL_RETRIES format_usd.
  intros Happ. unfold execute_payment_node, execute_payment, bind, ret, random_randint.
  rewrite Happ. reflexivity.
Qed.

Lemma execute_payment_node_not_approved (state : State.t) (w : World) :
  State.approval state <> Some true ->
  pay' state w
  = (inr (Updates.mk None None None None None None None (Some Status.cancelled)
            (Some (PaymentCancelled
                     (match State.pending_payment state with
                      | Some p => PendingPayment.invoice_id p
                      | None => ""
                      end)
                     "User did not approve"))),
     w).
Proof.
  clear HITL_APPROVAL_THRESHOLD_USD MAX_TOOL_RETRIES format_usd.
  intros Happ. unfold execute_payment_node, execute_payment, bind, ret.
  destruct (State.approval state) as [[|]|]; [congruence|reflexivity|reflexivity].
Qed.

(** X8. For any state: the node [execute_payment] never raises and sets the
    keys [status] and [result] only, the status being the status of the
    result.  The result is a payment exactly when [approval] is [True]:
    then one random integer is drawn, the reference is ["PAY-"], the
    invoice id, ["-"] and a number of [1000..9999], and the invoice id, the
    amount and the vendor are those of the pending payment, or the empty
    string, ["0"] and the empty string without one.  With any other
    [approval], absent or [None] included, the result is the cancellation
    with the reason ["User did not approve"] and nothing is drawn. *)
Theorem execute_payment_node_pays_iff_approved (state : State.t) (w : World) :
  let pending := State.pending_payment state in
  let invoice_id :=
    match pending with Some p => PendingPayment.invoice_id p | None => "" end in
  let amount_usd :=
    match pending with
    | Some p => Decimal_text (PendingPayment.amount p)
    | None => "0"
    end in
  let vendor_id :=
    match pending with Some p => PendingPayment.vendor_id p | None => "" end in
  exists (result : PaymentResult) (w' : World),
    pay' state w
    = (inr (Updates.mk None None None None None None None
              (Some (PaymentResult_status result)) (Some result)), w') /\
    (PaymentResult_status result = Status.paid <-> State.approval state = Some true) /\
    (State.approval state = Some true ->
     w' = advance 1 w /\
     exists n : Z,
       (1000 <= n <= 9999) /\
       result = PaymentPaid invoice_id amount_usd vendor_id
                  ("PAY-" +:+ invoice_id +:+ "-" +:+ str_int n)) /\
    (State.approval state <> Some true ->
     w' = w /\ result = PaymentCancelled invoice_id "User did not approve").
Proof.
  clear HITL_APPROVAL_THRESHOLD_USD MAX_TOOL_RETRIES format_usd.
  intros pending invoice_id amount_usd vendor_id.
  destruct (decide (State.approval state = Some true)) as [Happ|Happ].
  - rewrite (execute_payment_node_approved state w Happ). cbn zeta.
    eexists (PaymentPaid _ _ _ _), _. split; [reflexivity|]. cbn [PaymentResult_status].
    split; [tauto|]. split; [|contradiction].
    intros _. split; [reflexivity|].
    exists (1000 + ints w (cursor w) mod 9000). split; [|reflexivity].
    pose proof (Z.mod_pos_bound (ints w (cursor w)) 9000 ltac:(lia)). lia.
  - rewrite (execute_payment_node_not_approved state w Happ).
    eexists (PaymentCancelled _ _), _. split; [reflexivity|]. cbn [PaymentResult_status].
    split; [split; [discriminate|contradiction]|]. split; [contradiction|].
    intros _. split; reflexivity.
Qed.
(** The first run of [check_approval] on a state with a pending payment,
    and what follows it: a suspension at or above the threshold, the
    payment below it. *)
Lemma from_check_approval_cases (state : State.t) (p : PendingPayment.t)
    (trace : list (Node.t * State.t)) (w : World) :
  State.pending_payment state = Some p ->
  let amount := PendingPayment.amount p in
  let prompt :=
    Prompt.mk
      ("Ready to pay this $" +:+ format_usd (float_or_0 amount) +:+ " invoice. Approve?")
      (PendingPayment.invoice_id p) (float_or_0 amount) HITL_APPROVAL_THRESHOLD_USD in
  let approved :=
    merge state
      (Updates.mk None None (Some true) (Some None) None None None
         (Some Status.pending) None) in
  let final :=
    merge approved
      (Updates.mk None None None None None None None (Some Status.paid)
         (Some (PaymentPaid (PendingPayment.invoice_id p) (Decimal_text amount)
                  (PendingPayment.vendor_id p)
                  ("PAY-" +:+ PendingPayment.invoice_id p +:+ "-"
                   +:+ str_int (1000 + ints w (cursor w) mod 9000))))) in
  from_check_approval HITL_APPROVAL_THRESHOLD_USD format_usd Decimal_text
    state None trace w
  = if float_ge amount HITL_APPROVAL_THRESHOLD_USD
    then ((Suspended state prompt, trace), w)
    else ((Finished final,
           (trace ++ [(Node.check_approval, approved)])
           ++ [(Node.execute_payment, final)]),
          advance 1 w).
Proof.
  clear MAX_TOOL_RETRIES.
  intros Hp amount prompt approved final.
  unfold from_check_approval, check_approval_node. rewrite Hp.
  fold amount. rewrite float_ge_or_0.
  destruct (float_ge amount HITL_APPROVAL_THRESHOLD_USD); [reflexivity|].
  cbn [negb]. cbv iota. fold approved.
  change (route_after_approval approved) with (Some Node.execute_payment).
  cbv iota. unfold from_execute_payment.
  rewrite (execute_payment_node_approved approved w eq_refl).
  cbn zeta. change (State.pending_payment approved) with (State.pending_payment state).
  rewrite Hp. reflexivity.
Qed.

(** A run of a new thread: the state left by [reconcile], and the run from
    there on. *)
Lemma run_cases (vendor_id : option string) (w : World) :
  let node := reconcile_node MAX_TOOL_RETRIES (initial vendor_id) w in
  let state := merge (initial vendor_id) (fst node) in
  State.vendor_id state = vendor_id /\
  State.result state = None /\ State.approval state = None /\
  State.hitl_prompt state = None /\
  (exists items : list ReconciledItem.t,
      State.reconciled state = Some items /\
      forall v : string,
        vendor_id = Some v -> v <> "" ->
        Forall (fun item => Invoice.vendor_id (ReconciledItem.invoice item) = v) items) /\
  ((State.pending_payment state = None /\
    (State.status state = None \/ State.status state = Some Status.failed) /\
    run' vendor_id w = ((Finished state, [(Node.reconcile, state)]), snd node))
   \/
   (exists (first : Invoice.t) (rest : list Invoice.t),
       mock_selection vendor_id 5 = first :: rest /\
       State.pending_payment state
       = Some (PendingPayment.mk (Invoice.invoice_id first)
                 (float_of_Decimal (Invoice.amount first)) (Invoice.vendor_id first)) /\
       State.status state = None /\
       run' vendor_id w
       = from_check_approval HITL_APPROVAL_THRESHOLD_USD format_usd Decimal_text
           state None [(Node.reconcile, state)] (snd node))).
Proof.
  intros node state. subst state node. unfold run, from_start.
  destruct (reconcile_node_cases (initial vendor_id) w)
    as [(Hn & Hnot & ->)|[(Hex & ->)|(k & Hk & Hnot & Hlen & ->)]]; cbn [fst snd].
  - repeat (split; [reflexivity|]). split; [exists []; split; [reflexivity|constructor]|].
    left. split; [reflexivity|]. split; [left; reflexivity|]. reflexivity.
  - repeat (split; [reflexivity|]). split; [exists []; split; [reflexivity|constructor]|].
    left. split; [reflexivity|]. split; [right; reflexivity|]. reflexivity.
  - cbn [State.vendor_id initial] in *.
    repeat (split; [reflexivity|]). split.
    { eexists. split; [reflexivity|]. intros v -> Hv.
      apply reconcile_items_Forall. intros inv w' Hin.
      rewrite (proj1 (reconcile_one_shape inv w')). apply In_take in Hin.
      pose proof (mock_selection_vendor v 5 Hv) as Hall.
      rewrite Forall_forall in Hall. apply Hall, list_elem_of_In, Hin. }
    destruct (mock_selection vendor_id 5) as [|first rest] eqn:Hsel.
    + left. split; [reflexivity|]. split; [left; reflexivity|]. reflexivity.
    + right. exists first, rest. split; [reflexivity|]. split; [reflexivity|].
      split; [reflexivity|]. reflexivity.
Qed.
(** X10. A run of a new thread never ends with an exception of a node and
    ends in one of three ways.  After [reconcile] alone, with no pending
    payment, no payment result, no approval and a status that is unset or
    ['failed'].  Suspended in [check_approval] after [reconcile], the
    pending amount being at or above the threshold, with the prompt for the
    pending invoice and still no payment result.  Or after the three nodes
    in order, the pending amount not being at or above the threshold: the
    approval is [True], no prompt is recorded, the status is ['paid'] and
    the result is the payment of the pending invoice, amount and vendor.
    So a run that records a payment result has a pending amount that is not
    at or above the threshold. *)
Theorem run_outcomes (vendor_id : option string) (w : World) :
  let r := fst (run' vendor_id w) in
  ((exists s : State.t,
       fst r = Finished s /\ nodes_of r = [Node.reconcile] /\
       State.pending_payment s = None /\ State.result s = None /\
       State.approval s = None /\
       (State.status s = None \/ State.status s = Some Status.failed))
   \/
   (exists (s : State.t) (prompt : Prompt.t) (p : PendingPayment.t),
       fst r = Suspended s prompt /\ nodes_of r = [Node.reconcile] /\
       State.pending_payment s = Some p /\
       float_ge (PendingPayment.amount p) HITL_APPROVAL_THRESHOLD_USD = true /\
       Prompt.invoice_id prompt = PendingPayment.invoice_id p /\
       Prompt.approval_threshold_usd prompt = HITL_APPROVAL_THRESHOLD_USD /\
       State.result s = None /\ State.approval s = None)
   \/
   (exists (s : State.t) (p : PendingPayment.t) (reference : string),
       fst r = Finished s /\
       nodes_of r = [Node.reconcile; Node.check_approval; Node.execute_payment] /\
       State.pending_payment s = Some p /\
       float_ge (PendingPayment.amount p) HITL_APPROVAL_THRESHOLD_USD = false /\
       State.approval s = Some true /\ State.hitl_prompt s = None /\
       State.status s = Some Status.paid /\
       State.result s
       = Some (PaymentPaid (PendingPayment.invoice_id p)
                 (Decimal_text (PendingPayment.amount p))
                 (PendingPayment.vendor_id p) reference)))
  /\
  Forall (fun s =>
            is_Some (State.result s) ->
            exists p : PendingPayment.t,
              State.pending_payment s = Some p /\
              float_ge (PendingPayment.amount p) HITL_APPROVAL_THRESHOLD_USD = false)
         (states_of r).
Proof.
  intros r. subst r.
  pose proof (run_cases vendor_id w) as Hrun. cbv zeta in Hrun.
  set (s1 := merge (initial vendor_id)
               (fst (reconcile_node MAX_TOOL_RETRIES (initial vendor_id) w))) in *.
  clearbody s1.
  destruct Hrun
    as (_ & Hres & Happ & _ & _ &
        [(Hnone & Hst & ->)|(first & rest & _ & Hp & Hst & ->)]).
  - split.
    + left. exists s1. cbn. auto 10.
    + cbn. repeat constructor; rewrite Hres; intros [x Hx]; discriminate.
  - rewrite (from_check_approval_cases _ _ _ _ Hp).
    cbn [PendingPayment.amount PendingPayment.invoice_id PendingPayment.vendor_id].
    destruct (float_ge (float_of_Decimal (Invoice.amount first))
                HITL_APPROVAL_THRESHOLD_USD) eqn:Hge.
    + split.
      * right. left. eexists. eexists. eexists.
        cbn [fst snd nodes_of map]. split; [reflexivity|]. split; [reflexivity|].
        split; [exact Hp|]. cbn. auto 10.
      * cbn. repeat constructor; rewrite Hres; intros [x Hx]; discriminate.
    + split.
      * right. right. eexists. eexists. eexists.
        cbn [fst snd nodes_of map app]. split; [reflexivity|]. split; [reflexivity|].
        cbn. split; [exact Hp|]. cbn. auto 10.
      * cbn. repeat constructor; cbn; intros [x Hx];
          try (rewrite Hres in Hx; discriminate);
          eexists; (split; [exact Hp|exact Hge]).
Qed.
(** What a prompt tells about the state it was built from. *)
Lemma check_approval_interrupted (state : State.t) (prompt : Prompt.t) :
  check' state None = Interrupt prompt ->
  Prompt.invoice_id prompt
  = match State.pending_payment state with
    | Some p => PendingPayment.invoice_id p
    | None => ""
    end /\
  Prompt.approval_threshold_usd prompt = HITL_APPROVAL_THRESHOLD_USD /\
  float_ge (Prompt.amount_usd prompt) HITL_APPROVAL_THRESHOLD_USD = true /\
  forall p : PendingPayment.t,
    State.pending_payment state = Some p ->
    Prompt.amount_usd prompt = float_or_0 (PendingPayment.amount p) /\
    float_ge (PendingPayment.amount p) HITL_APPROVAL_THRESHOLD_USD = true.
Proof.
  clear MAX_TOOL_RETRIES.
  unfold check_approval_node.
  destruct (float_ge _ HITL_APPROVAL_THRESHOLD_USD) eqn:Hge; [|discriminate].
  cbn [negb interrupt]. cbv iota. intros H. injection H as <-.
  cbn [Prompt.invoice_id Prompt.approval_threshold_usd Prompt.amount_usd].
  split; [reflexivity|]. split; [reflexivity|]. split; [exact Hge|].
  intros p Hp. rewrite Hp in Hge |- *. split; [reflexivity|].
  rewrite float_ge_or_0 in Hge. exact Hge.
Qed.

(** X11. For any state on which [check_approval] suspends with a prompt.
    Resumed with an approval, the run finishes after [check_approval] and
    [execute_payment] with one random integer drawn: the payment recorded
    is for the invoice id of the prompt, with a reference made of it and a
    number of [1000..9999]; the amount and the vendor are those of the
    pending payment, whose amount is at or above the threshold and is the
    amount the prompt showed; the prompt is recorded in [hitl_prompt].
    Resumed with a rejection, the run finishes after [check_approval] with
    nothing drawn, the prompt recorded, [approval] false and [result] as
    it was.  The pending payment is left as it was in both cases. *)
Theorem resume_pays_prompted_invoice (state : State.t) (prompt : Prompt.t) (w : World) :
  check' state None = Interrupt prompt ->
  (exists (final : State.t) (amount vendor : string) (n : Z),
      fst (fst (resume' state true w)) = Finished final /\
      nodes_of (fst (resume' state true w))
      = [Node.check_approval; Node.execute_payment] /\
      snd (resume' state true w) = advance 1 w /\
      State.result final
      = Some (PaymentPaid (Prompt.invoice_id prompt) amount vendor
                ("PAY-" +:+ Prompt.invoice_id prompt +:+ "-" +:+ str_int n)) /\
      (1000 <= n <= 9999) /\
      State.hitl_prompt final = Some prompt /\
      State.pending_payment final = State.pending_payment state /\
      forall p : PendingPayment.t,
        State.pending_payment state = Some p ->
        amount = Decimal_text (PendingPayment.amount p) /\
        vendor = PendingPayment.vendor_id p /\
        float_ge (PendingPayment.amount p) HITL_APPROVAL_THRESHOLD_USD = true /\
        Prompt.amount_usd prompt = float_or_0 (PendingPayment.amount p))
  /\
  (exists final : State.t,
      resume' state false w = ((Finished final, [(Node.check_approval, final)]), w) /\
      State.hitl_prompt final = Some prompt /\
      State.approval final = Some false /\
      State.result final = State.result state /\
      State.pending_payment final = State.pending_payment state).
Proof.
  clear MAX_TOOL_RETRIES.
  intros Hnode.
  destruct (check_approval_interrupted state prompt Hnode) as (Hid & _ & _ & Hpending).
  pose proof (fun b => check_approval_resumed HITL_APPROVAL_THRESHOLD_USD format_usd
                         Decimal_text state prompt b Hnode) as Hdec.
  split.
  - unfold resume, from_check_approval. rewrite Hdec.
    set (decided := merge state _).
    change (route_after_approval decided) with (Some Node.execute_payment).
    cbv iota. unfold from_execute_payment.
    rewrite (execute_payment_node_approved decided w eq_refl). cbn zeta.
    change (State.pending_payment decided) with (State.pending_payment state).
    rewrite <- Hid.
    eexists. eexists. eexists. exists (1000 + ints w (cursor w) mod 9000).
    cbn [fst snd nodes_of map app].
    split; [reflexivity|]. split; [reflexivity|]. split; [reflexivity|].
    split; [reflexivity|]. split.
    { pose proof (Z.mod_pos_bound (ints w (cursor w)) 9000 ltac:(lia)). lia. }
    split; [reflexivity|]. split; [reflexivity|].
    intros p Hp. rewrite Hp. destruct (Hpending p Hp) as [Hamount Hge]. auto.
  - unfold resume, from_check_approval. rewrite Hdec.
    eexists. split; [reflexivity|]. auto.
Qed.
(** X12. A run of a new thread for a vendor, given as a non-empty string,
    stays with that vendor: in every state of the run the vendor filter is
    the one given, every reconciled invoice, the pending payment and the
    payment recorded are of that vendor.  When no invoice of the table is of
    that vendor, only [reconcile] runs and no state has a pending payment
    or a payment result. *)
Theorem run_keeps_vendor_filter (v : string) (w : World) :
  v <> "" ->
  let r := fst (run' (Some v) w) in
  Forall (fun s =>
            State.vendor_id s = Some v /\
            (forall items : list ReconciledItem.t,
                State.reconciled s = Some items ->
                Forall (fun item => Invoice.vendor_id (ReconciledItem.invoice item) = v)
                       items) /\
            (forall p : PendingPayment.t,
                State.pending_payment s = Some p -> PendingPayment.vendor_id p = v) /\
            (forall invoice_id amount vendor reference : string,
                State.result s = Some (PaymentPaid invoice_id amount vendor reference) ->
                vendor = v))
         (states_of r)
  /\
  ((forall inv : Invoice.t, In inv mock_invoice_items -> Invoice.vendor_id inv <> v) ->
   nodes_of r = [Node.reconcile] /\
   Forall (fun s => State.pending_payment s = None /\ State.result s = None)
          (states_of r)).
Proof.
  intros Hv r. subst r.
  pose proof (run_cases (Some v) w) as Hrun. cbv zeta in Hrun.
  set (s1 := merge (initial (Some v))
               (fst (reconcile_node MAX_TOOL_RETRIES (initial (Some v)) w))) in *.
  clearbody s1.
  destruct Hrun
    as (Hvendor & Hres & _ & _ & (items & Hitems & Hall) &
        [(Hnone & _ & ->)|(first & rest & Hsel & Hp & _ & ->)]).
  - specialize (Hall v eq_refl Hv). split.
    + cbn. repeat constructor; try exact Hvendor;
        try (intros items' Hi; rewrite Hitems in Hi; injection Hi as <-; exact Hall);
        try (intros p Hp; rewrite Hnone in Hp; discriminate);
        intros i a vd rf Hr; rewrite Hres in Hr; discriminate.
    + intros _. split; [reflexivity|]. cbn. repeat constructor; assumption.
  - specialize (Hall v eq_refl Hv).
    assert (Hfirst : Invoice.vendor_id first = v).
    { pose proof (mock_selection_vendor v 5 Hv) as Hsel'. rewrite Hsel in Hsel'.
      apply Forall_inv in Hsel'. exact Hsel'. }
    rewrite (from_check_approval_cases _ _ _ _ Hp).
    cbn [PendingPayment.amount PendingPayment.invoice_id PendingPayment.vendor_id].
    split.
    + destruct (float_ge _ _); cbn; repeat constructor; cbn; try exact Hvendor;
        try (intros items' Hi; rewrite Hitems in Hi; injection Hi as <-; exact Hall);
        try (intros p Hp'; rewrite Hp in Hp'; injection Hp' as <-; exact Hfirst);
        intros i a vd rf Hr; try (rewrite Hres in Hr; discriminate);
        injection Hr as _ _ <- _; exact Hfirst.
    + intros Hunknown. exfalso. apply (Hunknown first); [|exact Hfirst].
      apply (mock_selection_In (Some v) 5). rewrite Hsel. left. reflexivity.
Qed.
End WorkflowFacts.

(** The suspended run of vendor ['V001'], approved: the payment is the one
    of the prompt. *)
Lemma resume_pays_prompted_invoice_witness :
  check_approval_node HITL_APPROVAL_THRESHOLD_USD_default sample_format_usd
    sample_Decimal_text sample_suspended None
  = Interrupt sample_prompt
  /\
  exists (final : State.t) (n : Z),
    fst (fst (resume HITL_APPROVAL_THRESHOLD_USD_default sample_format_usd
                sample_Decimal_text sample_suspended true (world_of [])))
    = Finished final /\
    State.result final
    = Some (PaymentPaid "INV-001" "10000.0" "V001" ("PAY-INV-001-" +:+ str_int n)) /\
    State.hitl_prompt final = Some sample_prompt.
Proof.
  assert (Hnode : check_approval_node HITL_APPROVAL_THRESHOLD_USD_default
                    sample_format_usd sample_Decimal_text sample_suspended None
                  = Interrupt sample_prompt) by (vm_compute; reflexivity).
  split; [exact Hnode|].
  destruct (resume_pays_prompted_invoice HITL_APPROVAL_THRESHOLD_USD_default
              sample_format_usd sample_Decimal_text sample_suspended sample_prompt
              (world_of []) Hnode)
    as [(final & amount & vendor & n & Hfin & _ & _ & Hres & _ & Hprompt & _ & Hp) _].
  destruct (Hp (PendingPayment.mk "INV-001" (float_of_Decimal (1000000 # 100)%Q) "V001")
              ltac:(vm_compute; reflexivity)) as (-> & -> & _).
  exists final, n. split; [exact Hfin|]. split; [exact Hres|exact Hprompt].
Defined.

(** The run for vendor ['V002'] with the default settings and no timeout. *)
Lemma run_keeps_vendor_filter_witness :
  "V002" <> "" /\
  Forall (fun s =>
            State.vendor_id s = Some "V002" /\
            (forall p : PendingPayment.t,
                State.pending_payment s = Some p -> PendingPayment.vendor_id p = "V002"))
         (states_of (fst (run HITL_APPROVAL_THRESHOLD_USD_default MAX_TOOL_RETRIES_default
                            sample_format_usd sample_Decimal_text (Some "V002")
                            (world_of []))))
  /\
  nodes_of (fst (run HITL_APPROVAL_THRESHOLD_USD_default MAX_TOOL_RETRIES_default
                   sample_format_usd sample_Decimal_text (Some "V002") (world_of [])))
  = [Node.reconcile; Node.check_approval; Node.execute_payment].
Proof.
  assert (Hv : "V002" <> "") by discriminate.
  split; [exact Hv|]. split; [|vm_compute; reflexivity].
  destruct (run_keeps_vendor_filter HITL_APPROVAL_THRESHOLD_USD_default
              MAX_TOOL_RETRIES_default sample_format_usd sample_Decimal_text
              "V002" (world_of []) Hv) as [Hall _].
  eapply Forall_impl; [exact Hall|].
  intros s (Hs & _ & Hp & _). split; assumption.
Defined.

(** X13. The summary that [get_payment_summary] builds for the pending
    payment of a state requires approval exactly when [check_approval]
    suspends on that state; it carries the invoice id of the pending
    payment, the currency ["USD"] and the threshold of the configuration. *)
Theorem payment_summary_agrees_with_gate (HITL_APPROVAL_THRESHOLD_USD : float)
    (format_usd Decimal_text : float -> string) (state : State.t) :
  let pending := State.pending_payment state in
  let invoice_id :=
    match pending with Some p => PendingPayment.invoice_id p | None => "" end in
  let amount_usd :=
    match pending with
    | Some p => float_or_0 (PendingPayment.amount p)
    | None => S754_zero false
    end in
  let summary :=
    get_payment_summary HITL_APPROVAL_THRESHOLD_USD Decimal_text invoice_id amount_usd in
  (PaymentDetails.requires_approval summary = true <->
   exists prompt : Prompt.t,
     check_approval_node HITL_APPROVAL_THRESHOLD_USD format_usd Decimal_text state None
     = Interrupt prompt) /\
  (PaymentDetails.requires_approval summary = false <->
   exists updates : Updates.t,
     check_approval_node HITL_APPROVAL_THRESHOLD_USD format_usd Decimal_text state None
     = Return updates) /\
  PaymentDetails.invoice_id summary = invoice_id /\
  PaymentDetails.amount_usd summary = Decimal_text amount_usd /\
  PaymentDetails.currency summary = "USD" /\
  PaymentDetails.approval_threshold_usd summary = HITL_APPROVAL_THRESHOLD_USD.
Proof.
  intros pending invoice_id amount_usd summary.
  subst summary. unfold get_payment_summary, get_payment_details, check_approval_node.
  cbn [PaymentDetails.requires_approval PaymentDetails.invoice_id
       PaymentDetails.amount_usd PaymentDetails.currency
       PaymentDetails.approval_threshold_usd].
  fold pending. fold amount_usd.
  destruct (float_ge amount_usd HITL_APPROVAL_THRESHOLD_USD); cbn [negb interrupt];
    cbv iota.
  - split; [split; [eauto|reflexivity]|].
    split; [split; [discriminate|intros [u Hu]; discriminate]|]. auto.
  - split; [split; [discriminate|intros [u Hu]; discriminate]|].
    split; [split; [eauto|reflexivity]|]. auto.
Qed.

(* ===================================================================== *)
(** * Further properties of the redaction and of the responses *)
(* ===================================================================== *)

Lemma map_fixed_forallb {X : Type} (f : X -> X) (t : X -> bool) (l : list X) :
  Forall (fun a => f a = a <-> t a = true) l ->
  (map f l = l <-> forallb t l = true).
Proof.
  induction 1 as [|a l Ha _ IH]; cbn [map forallb]; [tauto|].
  rewrite andb_true_iff, <- Ha, <- IH. split.
  - intros H. injection H as H1 H2. auto.
  - intros [-> ->]. reflexivity.
Qed.

Lemma forallb_map_Forall {X : Type} (f : X -> X) (t : X -> bool) (l : list X) :
  Forall (fun a => t (f a) = true) l -> forallb t (map f l) = true.
Proof.
  induction 1 as [|a l Ha _ IH]; cbn [map forallb]; [reflexivity|].
  rewrite Ha, IH. reflexivity.
Qed.

Lemma is_placeholder_iff (v : pyval) :
  is_placeholder v = true <-> v = PStr REDACT_PLACEHOLDER.
Proof.
  destruct v; cbn [is_placeholder]; try (split; discriminate).
  rewrite String.eqb_eq. split; [intros ->; reflexivity|intros H; injection H; auto].
Qed.

(** The output of the redaction holds no PII value any more. *)
Lemma pii_redacted_redact_pii (x : pyval) : pii_redacted (redact_pii x) = true.
Proof.
  induction x as [| | | | |items IH|entries IH|items IH] using pyval_ind;
    try reflexivity.
  - cbn [redact_pii pii_redacted]. apply forallb_map_Forall. exact IH.
  - rewrite redact_pii_dict. cbn [pii_redacted].
    apply (forallb_map_Forall
             (fun kv => (fst kv,
                         if bool_decide (fst kv ∈ PII_KEYS)
                         then PStr REDACT_PLACEHOLDER
                         else redact_pii (snd kv)))).
    eapply Forall_impl; [exact IH|]. intros [k v] Hv. cbn [fst snd] in *.
    destruct (bool_decide (k ∈ PII_KEYS)); [reflexivity|exact Hv].
Qed.

Lemma redact_pii_fixed_iff (x : pyval) : redact_pii x = x <-> pii_redacted x = true.
Proof.
  induction x as [| | | | |items IH|entries IH|items IH] using pyval_ind;
    try (cbn; tauto).
  - cbn [redact_pii pii_redacted].
    rewrite <- (map_fixed_forallb redact_pii pii_redacted items IH).
    split; [intros H; injection H; auto|intros ->; reflexivity].
  - rewrite redact_pii_dict. cbn [pii_redacted].
    rewrite <- (map_fixed_forallb
                  (fun kv => (fst kv,
                              if bool_decide (fst kv ∈ PII_KEYS)
                              then PStr REDACT_PLACEHOLDER
                              else redact_pii (snd kv)))).
    + split; [intros H; injection H; auto|intros ->; reflexivity].
    + eapply Forall_impl; [exact IH|]. intros [k v] Hv. cbn [fst snd] in *.
      destruct (bool_decide (k ∈ PII_KEYS)).
      * rewrite is_placeholder_iff. split; [intros H; injection H; auto|intros ->; auto].
      * rewrite <- Hv. split; [intros H; injection H; auto|intros ->; reflexivity].
Qed.

(** X14. The values [redact_pii] leaves as they are are those with nothing
    to redact: through dictionaries and lists, every value under a key of
    the PII set is already the placeholder.  Every output of [redact_pii]
    is such a value. *)
Theorem redact_pii_fixed_points (x : pyval) :
  (redact_pii x = x <-> pii_redacted x = true) /\
  pii_redacted (redact_pii x) = true /\
  (redact_pii x = PNone <-> x = PNone).
Proof.
  split; [apply redact_pii_fixed_iff|]. split; [apply pii_redacted_redact_pii|].
  destruct x; cbn; split; intros H; try discriminate; try reflexivity; exact H.
Qed.

Lemma redact_pii_not_None (v : pyval) : is_None (redact_pii v) = is_None v.
Proof. destruct v; reflexivity. Qed.

(** The entries of a response: the entries of the state not bound to
    [None], each one redacted. *)
Lemma response_entries (state : list (string * pyval)) :
  response state
  = PDict (map (fun kv =>
                  (fst kv,
                   if bool_decide (fst kv ∈ PII_KEYS)
                   then PStr REDACT_PLACEHOLDER
                   else redact_pii (snd kv)))
               (_state_to_response state)).
Proof. reflexivity. Qed.

Lemma _state_to_response_all_None (state : list (string * pyval)) :
  Forall (fun kv => snd kv = PNone) state -> _state_to_response state = [].
Proof.
  induction 1 as [|[k v] l Hv _ IH]; [reflexivity|].
  cbn in Hv. subst v. cbn. exact IH.
Qed.

(** In the redaction of a JSON-like value, the value under a key of the PII
    set is the placeholder, at any depth. *)
Lemma at_pii_key_redacted (p : list step) (x : pyval) (k : string) (v : pyval) :
  json_like x = true ->
  k ∈ PII_KEYS ->
  at_path (p ++ [Key k]) (redact_pii x) = Some v ->
  v = PStr REDACT_PLACEHOLDER.
Proof.
  revert x. induction p as [|s p IH]; intros x Hj Hk Hv.
  - cbn [app at_path] in Hv. rewrite child_redacted in Hv by exact Hj.
    destruct (child (Key k) x) as [x'|]; [|discriminate].
    cbn in Hv. rewrite bool_decide_eq_true_2 in Hv by exact Hk.
    injection Hv as <-. reflexivity.
  - cbn [app at_path] in Hv. rewrite child_redacted in Hv by exact Hj.
    destruct (child s x) as [x'|] eqn:Hc; [|discriminate].
    cbn in Hv. destruct (is_pii_step s).
    + apply at_path_PStr in Hv. destruct p; discriminate.
    + exact (IH x' (json_like_child s x x' Hj Hc) Hk Hv).
Qed.

Lemma json_like_state_to_response (state : list (string * pyval)) :
  forallb (fun kv => json_like (snd kv)) state = true ->
  json_like (PDict (_state_to_response state)) = true.
Proof.
  intros Hj. cbn [json_like]. apply forallb_forall. intros kv Hin.
  apply filter_In in Hin as [Hin _].
  rewrite forallb_forall in Hj. exact (Hj kv Hin).
Qed.

(** X15. The value the endpoints return for a state is a dictionary whose
    keys are the keys of the state not bound to [None], in the order of the
    state.  No key of it is bound to [None] and every key of the PII set in
    it is bound to the placeholder; a key outside the PII set bound to a
    value other than [None] is bound to the redaction of that value, so a
    tuple under such a key is returned as it is, with what it holds.  A key
    bound to [None] only is absent, a key of the PII set included: the
    filter runs before the redaction.  Through dictionaries and lists every
    value under a key of the PII set is the placeholder; when the values of
    the state are JSON-like (no tuple at any depth) this is so at every
    depth.  Filtering or redacting the value again changes nothing. *)
Theorem response_shape (state : list (string * pyval)) :
  exists entries : list (string * pyval),
    response state = PDict entries /\
    map fst entries = map fst (_state_to_response state) /\
    Forall (fun kv => snd kv <> PNone) entries /\
    Forall (fun kv => fst kv ∈ PII_KEYS -> snd kv = PStr REDACT_PLACEHOLDER) entries /\
    (forall (k : string) (v : pyval),
        In (k, v) state -> v <> PNone -> k ∉ PII_KEYS -> In (k, redact_pii v) entries) /\
    (forall (k : string) (items : list pyval),
        In (k, PTuple items) state -> k ∉ PII_KEYS -> In (k, PTuple items) entries) /\
    (forall k : string,
        (forall v : pyval, In (k, v) state -> v = PNone) -> ~ In k (map fst entries)) /\
    pii_redacted (PDict entries) = true /\
    (forallb (fun kv => json_like (snd kv)) state = true ->
     forall (p : list step) (k : string) (v : pyval),
       k ∈ PII_KEYS ->
       at_path (p ++ [Key k]) (PDict entries) = Some v ->
       v = PStr REDACT_PLACEHOLDER) /\
    _state_to_response entries = entries /\
    redact_pii (PDict entries) = PDict entries.
Proof.
  eexists. split; [apply response_entries|].
  set (entry := fun kv : string * pyval =>
                  (fst kv,
                   if bool_decide (fst kv ∈ PII_KEYS)
                   then PStr REDACT_PLACEHOLDER
                   else redact_pii (snd kv))).
  assert (Hkept : forall kv, In kv (_state_to_response state) ->
                             In kv state /\ is_None (snd kv) = false).
  { intros kv Hin. apply filter_In in Hin as [Hin Hnn].
    split; [exact Hin|]. destruct (is_None (snd kv)); [discriminate|reflexivity]. }
  assert (Hnn : Forall (fun kv => snd kv <> PNone) (map entry (_state_to_response state))).
  { apply List.Forall_forall. intros kv Hin. apply in_map_iff in Hin as ([k v] & <- & Hin).
    apply Hkept in Hin as [_ Hv]. unfold entry in *; cbn [fst snd] in *.
    destruct (bool_decide (k ∈ PII_KEYS)); [discriminate|].
    intros Hnone. rewrite <- redact_pii_not_None, Hnone in Hv. discriminate. }
  assert (Hother : forall (k : string) (v : pyval),
             In (k, v) state -> v <> PNone -> k ∉ PII_KEYS ->
             In (k, redact_pii v) (map entry (_state_to_response state))).
  { intros k v Hin Hv Hk.
    apply in_map_iff. exists (k, v). split.
    + unfold entry; cbn [fst snd]. rewrite bool_decide_eq_false_2 by exact Hk. reflexivity.
    + apply filter_In. split; [exact Hin|]. cbn [snd]. destruct v; try reflexivity.
      contradiction. }
  split; [|split; [exact Hnn|split; [|split; [exact Hother|split;
           [|split; [|split; [|split; [|split]]]]]]]].
  - rewrite map_map. reflexivity.
  - apply List.Forall_forall. intros kv Hin. apply in_map_iff in Hin as ([k v] & <- & _).
    unfold entry; cbn [fst snd]. intros Hk. rewrite bool_decide_eq_true_2 by exact Hk.
    reflexivity.
  - intros k items Hin Hk.
    exact (Hother k (PTuple items) Hin ltac:(discriminate) Hk).
  - intros k Hk Hin. apply in_map_iff in Hin as ([k' v'] & Hfst & Hin).
    apply in_map_iff in Hin as ([k'' v] & Hentry & Hin).
    apply Hkept in Hin as [Hin Hv]. unfold entry in *; cbn [fst snd] in *.
    injection Hentry as -> _. subst k'. rewrite (Hk v Hin) in Hv. discriminate.
  - rewrite <- response_entries. apply pii_redacted_redact_pii.
  - intros Hj p k v Hk Hv. rewrite <- response_entries in Hv.
    exact (at_pii_key_redacted p _ k v (json_like_state_to_response state Hj) Hk Hv).
  - clear Hother. unfold _state_to_response at 1.
    induction (map entry (_state_to_response state)) as [|kv l IH]; [reflexivity|].
    apply Forall_cons_1 in Hnn as [Hkv Hl]. cbn [List.filter].
    destruct (snd kv) eqn:Hs; try contradiction; cbn [is_None negb];
      f_equal; apply IH, Hl.
  - rewrite <- response_entries. apply redact_pii_idempotent.
Qed.

Lemma dict_get_state_to_response (k : string) (v : pyval)
    (state : list (string * pyval)) :
  dict_get k state = Some v -> is_None v = false ->
  dict_get k (_state_to_response state) = Some v.
Proof.
  intros Hget Hv. induction state as [|[k' v'] rest IH]; [discriminate|].
  cbn [dict_get] in Hget. cbn [_state_to_response List.filter snd].
  destruct (String.eqb k k') eqn:Hk.
  - injection Hget as ->. rewrite Hv. cbn [negb dict_get]. rewrite Hk. reflexivity.
  - destruct (negb (is_None v')); [cbn [dict_get]; rewrite Hk|]; exact (IH Hget).
Qed.

(** A tuple bound to a key outside the PII set is returned as it is. *)
Lemma response_tuple_kept (k : string) (items : list pyval)
    (state : list (string * pyval)) :
  dict_get k state = Some (PTuple items) -> k ∉ PII_KEYS ->
  at_path [Key k] (response state) = Some (PTuple items).
Proof.
  intros Hget Hk. rewrite response_entries. cbn [at_path child].
  rewrite dict_get_redacted,
    (dict_get_state_to_response k (PTuple items) state Hget eq_refl).
  cbn. rewrite bool_decide_eq_false_2 by exact Hk. reflexivity.
Qed.

(** X16. [get_state] answers 404 with the detail ["Thread not found"]
    exactly for a thread with no value, and answers no other error.  For
    any other thread it answers the response for the values, in which,
    through dictionaries and lists, every value under a key of the PII set
    is the placeholder; when the values are JSON-like (no tuple at any
    depth) this is so at every depth, while what a tuple holds is returned
    as it is.  A thread whose values are all [None] is answered with the
    empty dictionary, not with 404. *)
Theorem get_state_not_found_iff (snapshot_values : list (string * pyval)) :
  (get_state snapshot_values = inl (mkHTTPException 404 "Thread not found") <->
   snapshot_values = []) /\
  (forall e : HTTPException,
      get_state snapshot_values = inl e ->
      status_code e = 404 /\ snapshot_values = []) /\
  (forall body : pyval,
      get_state snapshot_values = inr body ->
      snapshot_values <> [] /\ body = response snapshot_values /\
      pii_redacted body = true /\
      (forallb (fun kv => json_like (snd kv)) snapshot_values = true ->
       forall (p : list step) (k : string) (v : pyval),
         k ∈ PII_KEYS ->
         at_path (p ++ [Key k]) body = Some v ->
         v = PStr REDACT_PLACEHOLDER) /\
      (forall (k : string) (items : list pyval),
          dict_get k snapshot_values = Some (PTuple items) -> k ∉ PII_KEYS ->
          at_path [Key k] body = Some (PTuple items))) /\
  (snapshot_values <> [] ->
   Forall (fun kv => snd kv = PNone) snapshot_values ->
   get_state snapshot_values = inr (PDict [])).
Proof.
  unfold get_state.
  destruct snapshot_values as [|kv rest]; cbn [list_truthy negb].
  - split; [tauto|]. split; [intros e He; injection He as <-; auto|].
    split; [discriminate|]. intros H; contradiction.
  - split; [split; discriminate|]. split; [discriminate|]. split.
    + intros body Hb. injection Hb as <-. split; [discriminate|].
      split; [reflexivity|]. split; [apply pii_redacted_redact_pii|]. split.
      * intros Hj p k v Hk Hv.
        exact (at_pii_key_redacted p _ k v (json_like_state_to_response _ Hj) Hk Hv).
      * intros k items Hget Hk. exact (response_tuple_kept k items _ Hget Hk).
    + intros _ Hall. rewrite response_entries,
        (_state_to_response_all_None (kv :: rest) Hall). reflexivity.
Qed.

(* ===================================================================== *)
(** * The matches of the reconciliation step *)
(* ===================================================================== *)

(** A property of every item a turn of the loop can give for an invoice of
    the table holds of every item of the step. *)
Lemma reconcile_step_Forall (P : ReconciledItem.t -> Prop) (MAX_TOOL_RETRIES : Z)
    (vendor_id : option string) (limit : Z) (w : World) :
  (forall inv w', In inv mock_invoice_items -> P (fst (reconcile_one inv w'))) ->
  Forall P (fst (fst (fst (reconcile_step MAX_TOOL_RETRIES vendor_id limit w)))).
Proof.
  intros HP. unfold reconcile_step.
  pose proof (fetched_cases MAX_TOOL_RETRIES vendor_id limit w) as Hcases.
  cbn zeta in Hcases.
  destruct (run_with_retry_and_fallback run_fetch_invoices (vendor_id, limit) []
              MAX_TOOL_RETRIES w) as [[[]|[[invoices err] uf]] w1].
  cbn [fst] in Hcases.
  destruct Hcases as [[e He]|[He|He]]; injection He as -> -> ->;
    [constructor|constructor|].
  destruct (reconcile_items (take 3 (mock_selection vendor_id limit)) w1)
    as [reconciled w2] eqn:Hitems.
  cbn [fst]. replace reconciled
    with (fst (reconcile_items (take 3 (mock_selection vendor_id limit)) w1))
    by (rewrite Hitems; reflexivity).
  apply reconcile_items_Forall. intros inv w' Hin.
  apply HP. apply In_take in Hin. apply (mock_selection_In vendor_id limit), Hin.
Qed.

(** X17. Every match in the list of [reconcile_step] says ["Match found"]:
    the invoice is one of the table and the purchase order looked up for
    its vendor exists.  The order ["PO-102"] is never looked up, so invoice
    ["INV-002"] is compared with an order of another amount: its amounts do
    not match and its score is [0.5], while the amounts of every other
    invoice match, with the score [1.0]. *)
Theorem reconcile_step_matches_found (MAX_TOOL_RETRIES : Z)
    (vendor_id : option string) (limit : Z) (w : World) :
  Forall (fun item =>
            forall m : ReconciliationResult.t,
              ReconciledItem.match_ item = Some m ->
              ReconciliationResult.message m = "Match found" /\
              ReconciliationResult.po_id m <> "PO-102" /\
              (ReconciliationResult.amount_match m = false <->
               Invoice.invoice_id (ReconciledItem.invoice item) = "INV-002") /\
              ReconciliationResult.match_score m
              = (if ReconciliationResult.amount_match m
                 then float_lit (1 # 1)%Q else float_lit (1 # 2)%Q))
         (fst (fst (fst (reconcile_step MAX_TOOL_RETRIES vendor_id limit w)))).
Proof.
  apply reconcile_step_Forall. intros inv w' Hin.
  unfold reconcile_one, run_match_invoice, match_invoice_to_po, bind.
  rewrite _mock_invoices_call.
  destruct (timeout_drawn (draws w' (cursor w'))); [intros m Hm; discriminate|].
  cbn in Hin. destruct Hin as [<-|[<-|[<-|[]]]];
    intros m Hm; vm_compute in Hm; injection Hm as <-;
    (split; [reflexivity|]); (split; [discriminate|]);
    (split; [split; intros H; try discriminate H; reflexivity|]);
    vm_compute; reflexivity.
Qed.

(* ===================================================================== *)
(** * The decisions of the approval node *)
(* ===================================================================== *)

(** X18. For any state and any resume value: [check_approval] suspends only
    on its first run and only with an amount at or above the threshold, and
    the payload it suspends with is the prompt for the pending payment.
    When it returns, it sets [approval], [hitl_prompt] and [status] and no
    other key; the status is ['pending'] with an approval and ['cancelled']
    without; the approval is false only on a rejection given on resume for an
    amount at or above the threshold, and below the threshold the resume
    value is not read; [hitl_prompt] is set to that prompt when the amount
    is at or above the threshold and to [None] when it is not. *)
Theorem check_approval_node_decisions (HITL_APPROVAL_THRESHOLD_USD : float)
    (format_usd Decimal_text : float -> string) (state : State.t)
    (resume_value : option bool) :
  let amount_usd :=
    match State.pending_payment state with
    | Some p => float_or_0 (PendingPayment.amount p)
    | None => S754_zero false
    end in
  let invoice_id :=
    match State.pending_payment state with
    | Some p => PendingPayment.invoice_id p
    | None => ""
    end in
  let needs_approval := float_ge amount_usd HITL_APPROVAL_THRESHOLD_USD in
  let prompt :=
    Prompt.mk ("Ready to pay this $" +:+ format_usd amount_usd +:+ " invoice. Approve?")
      invoice_id amount_usd HITL_APPROVAL_THRESHOLD_USD in
  match check_approval_node HITL_APPROVAL_THRESHOLD_USD format_usd Decimal_text
          state resume_value with
  | Interrupt payload =>
      payload = prompt /\ resume_value = None /\ needs_approval = true
  | Return updates =>
      (Updates.reconciled updates = None /\ Updates.pending_payment updates = None /\
       Updates.last_error updates = None /\ Updates.retry_count updates = None /\
       Updates.used_fallback updates = None /\ Updates.result updates = None) /\
      exists approved : bool,
        Updates.approval updates = Some approved /\
        Updates.status updates
        = Some (if approved then Status.pending else Status.cancelled) /\
        (approved = false <-> needs_approval = true /\ resume_value = Some false) /\
        (needs_approval = false -> approved = true) /\
        Updates.hitl_prompt updates
        = Some (if needs_approval then Some prompt else None) /\
        (Updates.hitl_prompt updates = Some None <-> needs_approval = false)
  end.
Proof.
  intros amount_usd invoice_id needs_approval prompt. unfold check_approval_node.
  fold amount_usd. fold invoice_id. fold needs_approval. fold prompt.
  destruct needs_approval; cbn [negb]; cbv iota.
  - destruct resume_value as [[|]|]; cbn [interrupt]; cbv beta iota.
    + split; [auto 10|]. exists true. cbn.
      split; [reflexivity|]. split; [reflexivity|].
      split; [split; [discriminate|intros [_ H]; discriminate]|].
      split; [reflexivity|]. split; [reflexivity|]. split; discriminate.
    + split; [auto 10|]. exists false. cbn.
      split; [reflexivity|]. split; [reflexivity|].
      split; [tauto|]. split; [discriminate|]. split; [reflexivity|].
      split; discriminate.
    + auto.
  - split; [cbn; auto 10|]. exists true. cbn.
    split; [reflexivity|]. split; [reflexivity|].
    split; [split; [discriminate|intros [H _]; discriminate]|].
    split; [reflexivity|]. split; [reflexivity|]. split; reflexivity.
Qed.
